(** * natscli [server ls]: aggregation, ranking and report of server replies

    A shallow embedding of [cli/server_list_command.go]: the callback that
    folds every reply into the running totals and the per-cluster table, the
    comparator handed to [sort.Slice], and the rows of the two tables. *)

From Stdlib Require Import ZArith QArith Lia Permutation Sorted.
From Stdlib.Strings Require Import Byte.
From Stdlib Require OrderedTypeEx.
From stdpp Require Import gmap strings list fin_maps sorting.

Local Open Scope Z_scope.

(** ** Go's fixed-width integers

    [int] is taken at its 64-bit width (the width on every platform the tool
    is released for); [int64], [uint32] and [uint64] are as named. *)

Definition wrap_int64 (z : Z) : Z := (z + 2 ^ 63) mod 2 ^ 64 - 2 ^ 63.
Definition wrap_uint32 (z : Z) : Z := z mod 2 ^ 32.
Definition wrap_uint64 (z : Z) : Z := z mod 2 ^ 64.

Definition int_add (a b : Z) : Z := wrap_int64 (a + b).
Definition int64_add (a b : Z) : Z := wrap_int64 (a + b).
Definition uint32_add (a b : Z) : Z := wrap_uint32 (a + b).

Definition is_int64 (z : Z) : Prop := - 2 ^ 63 <= z < 2 ^ 63.

(** [len] of a slice, as an [int]. *)
Definition len {A : Type} (l : list A) : Z := Z.of_nat (length l).

(** ** [sort.Slice]

    [sort.Slice] belongs to Go's standard library.  What is embedded here is
    [insertionSort_func] of package [sort], the routine to which [sort.Slice]
    (through [pdqsort_func], Go 1.19 and later) gives a slice of at most
    [maxInsertion] elements; longer slices take the quicksort path, which is
    not embedded.  The slice is a list read and written by index, [Less] and
    [Swap] are the two fields of [lessSwap]. *)

Definition maxInsertion : nat := 12.

Section SortSlice.
Context {A : Type}.
Variable less : A -> A -> bool.

Definition Less (data : list A) (i j : nat) : bool :=
  match data !! i, data !! j with
  | Some x, Some y => less x y
  | _, _ => false
  end.

Definition Swap (data : list A) (i j : nat) : list A :=
  match data !! i, data !! j with
  | Some x, Some y => <[i:=y]> (<[j:=x]> data)
  | _, _ => data
  end.

(** [for j := i; j > a && data.Less(j, j-1); j-- { data.Swap(j, j-1) }] *)
Fixpoint insertionSort_inner (a : nat) (data : list A) (j : nat) : list A :=
  match j with
  | O => data
  | S j' =>
      if (a <? j)%nat && Less data j j'
      then insertionSort_inner a (Swap data j j') j'
      else data
  end.

(** [for i := a + 1; i < b; i++ { ... }] *)
Definition insertionSort_func (data : list A) (a b : nat) : list A :=
  fold_left (insertionSort_inner a) (seq (a + 1) (b - (a + 1))) data.

Definition sort_Slice (data : list A) : list A :=
  insertionSort_func data 0 (length data).

(** The same computation on lists: [sink x rp] lets [x] travel leftwards
    through [rp], the sorted prefix with its last element first. *)
Fixpoint sink (x : A) (rp : list A) : list A :=
  match rp with
  | [] => [x]
  | p :: rp' => if less x p then p :: sink x rp' else x :: rp
  end.

Definition sink_all (rp : list A) (l : list A) : list A :=
  fold_left (fun acc x => sink x acc) l rp.

(** [a] may stand before [b] in the outcome: [b] stopped right after [a],
    or [a] went past [b]. *)
Definition may_precede (a b : A) : Prop := less b a = false \/ less a b = true.
End SortSlice.

(** ** The decoded reply

    [server.ServerStatsMsg] is declared by nats-server.  The fields are the
    ones the command reads, each at the type its use fixes: [connections] is
    an [int] and receives [Stats.Connections], [memory] and [slow] are
    [int64], [subs] is a [uint32].  A time is its [UnixNano], a duration its
    nanoseconds.  [CPU] is a [float64] decoded from a JSON number, hence
    finite: it is kept as the rational it denotes, which [<] compares. *)

Record RouteStat := { route_ID : Z }.

Record GatewayStat := { gw_Name : string; NumInbound : Z }.

Record ServerInfo := {
  Name : string;
  Host : string;
  Version : string;
  Cluster : string;
  Domain : string;
  JetStream : bool;
  Time : Z
}.

Record ServerStats := {
  Start : Z;
  Mem : Z;
  Cores : Z;
  CPU : Q;
  Connections : Z;
  NumSubs : Z;
  SlowConsumers : Z;
  Routes : list RouteStat;
  Gateways : list GatewayStat
}.

Record ServerStatsMsg := { Server : ServerInfo; Stats : ServerStats }.

(** [type result struct { *server.ServerStatsMsg; rtt time.Duration }] *)
Record result := { msg : ServerStatsMsg; rtt : Z }.

Record SrvLsCmd := {
  expect : Z;
  json : bool;
  sort : string;
  reverse : bool;
  compact : bool
}.

Record srvListCluster := {
  name : string;
  nodes : list string;
  gwOut : Z;
  gwIn : Z;
  conns : Z
}.

(** ** The accumulators of [list] and the callback that fills them *)

Record accumulators := {
  results : list result;
  clusters : gmap string srvListCluster;
  servers : Z;
  connections : Z;
  memory : Z;
  slow : Z;
  subs : Z;
  js : Z
}.

Definition start_of_run : accumulators :=
  {| results := []; clusters := ∅; servers := 0; connections := 0;
     memory := 0; slow := 0; subs := 0; js := 0 |}.

(** [for _, g := range ssm.Stats.Gateways { clusters[cluster].gwIn += g.NumInbound }] *)
Definition add_inbound (gwIn0 : Z) (gws : list GatewayStat) : Z :=
  fold_left (fun acc g => int_add acc (NumInbound g)) gws gwIn0.

(** The body of [if cluster != ""]: the entry is created when missing, then
    updated through the pointer kept in the map. *)
Definition update_cluster (ssm : ServerStatsMsg)
    (cl : gmap string srvListCluster) : gmap string srvListCluster :=
  let cluster := Cluster (Server ssm) in
  let entry :=
    match cl !! cluster with
    | Some e => e
    | None => {| name := cluster; nodes := []; gwOut := 0; gwIn := 0; conns := 0 |}
    end in
  <[cluster :=
      {| name := name entry;
         nodes := nodes entry ++ [Name (Server ssm)];
         gwOut := int_add (gwOut entry) (len (Gateways (Stats ssm)));
         gwIn := add_inbound (gwIn entry) (Gateways (Stats ssm));
         conns := int_add (conns entry) (Connections (Stats ssm)) |}]> cl.

(** The callback from [mu.Lock()] on: one decoded reply, received [since]
    nanoseconds after [start]. *)
Definition onRecord (ssm : ServerStatsMsg) (since : Z) (st : accumulators)
    : accumulators :=
  {| servers := int_add (servers st) 1;
     connections := int_add (connections st) (Connections (Stats ssm));
     memory := int64_add (memory st) (Mem (Stats ssm));
     slow := int64_add (slow st) (SlowConsumers (Stats ssm));
     subs := uint32_add (subs st) (NumSubs (Stats ssm));
     js := if JetStream (Server ssm) then int_add (js st) 1 else js st;
     clusters :=
       if String.eqb (Cluster (Server ssm)) ""
       then clusters st
       else update_cluster ssm (clusters st);
     results := results st ++ [{| msg := ssm; rtt := since |}] |}.

(** A reply as the transport hands it over: the payload and the time elapsed
    since [start] when it arrives. *)
Record reply := { data : list byte; since_start : Z }.

(** What a step of the run leaves behind: the process has exited (after
    the line given to [log.Printf]) or the accumulators go on. *)
Inductive run (S : Type) : Type :=
| Exited (logged : string) (code : Z)
| Running (st : S).
Arguments Exited {S} logged code.
Arguments Running {S} st.

Definition run_bind {S T : Type} (m : run S) (k : S -> run T) : run T :=
  match m with
  | Exited logged code => Exited logged code
  | Running st => k st
  end.

Notation "'do' x <- m ; k" := (run_bind m (fun x => k))
  (at level 10, x name, m at level 100, k at level 200).

(** Modelled from the spec: the replies the Reply Collector hands over, of
    those that arrive before the timeout, in arrival order: the first
    [waitFor] when [waitFor > 0], all of them when [waitFor] is 0. *)
Definition window (waitFor : Z) (arrivals : list reply) : list reply :=
  if 0 <? waitFor then take (Z.to_nat waitFor) arrivals else arrivals.

Section Command.
(** [json.Unmarshal] into a [ServerStatsMsg]: the error text or the record. *)
Variable json_Unmarshal : list byte -> string + ServerStatsMsg.

(** The callback handed to [doReqAsync]. *)
Definition callback (r : reply) (st : accumulators) : run accumulators :=
  match json_Unmarshal (data r) with
  | inl err => Exited ("Could not decode response: " ++ err) 1
  | inr ssm => Running (onRecord ssm (since_start r) st)
  end.

Fixpoint deliver (rs : list reply) (st : accumulators) : run accumulators :=
  match rs with
  | [] => Running st
  | r :: rs' => do st' <- callback r st; deliver rs' st'
  end.

(** Modelled from the spec: [doReqAsync] (cli/util.go, not among the
    sources), which calls the callback on every reply of the window, one
    after the other. *)
Definition doReqAsync (waitFor : Z) (arrivals : list reply)
    (st : accumulators) : run accumulators :=
  deliver (window waitFor arrivals) st.
End Command.

(** ** Ranking: the comparator of [sort.Slice] *)

Definition float64_lt (a b : Q) : bool := negb (Qle_bool b a).

(** [rev := func(v bool) bool { if !c.reverse { return !v }; return v }] *)
Definition rev (c : SrvLsCmd) (v : bool) : bool :=
  if negb (reverse c) then negb v else v.

Definition sort_is (c : SrvLsCmd) (keys : list string) : bool :=
  existsb (String.eqb (sort c)) keys.

(** The function literal given to [sort.Slice], on the two records found at
    [results[i]] and [results[j]]. *)
Definition less (c : SrvLsCmd) (ri rj : result) : bool :=
  let stati := Stats (msg ri) in
  let statj := Stats (msg rj) in
  if sort_is c ["name"] then
    String.ltb (Name (Server (msg ri))) (Name (Server (msg rj)))
  else if sort_is c ["conns"; "conn"] then
    rev c (Connections stati <? Connections statj)
  else if sort_is c ["subs"; "sub"] then
    rev c (NumSubs stati <? NumSubs statj)
  else if sort_is c ["routes"; "route"] then
    rev c (len (Routes stati) <? len (Routes statj))
  else if sort_is c ["gws"; "gw"] then
    rev c (len (Gateways stati) <? len (Gateways statj))
  else if sort_is c ["mem"] then
    rev c (Mem stati <? Mem statj)
  else if sort_is c ["cpu"] then
    rev c (float64_lt (CPU stati) (CPU statj))
  else if sort_is c ["slow"] then
    rev c (SlowConsumers stati <? SlowConsumers statj)
  else if sort_is c ["uptime"] then
    rev c (Start stati >? Start statj)
  else
    rev c (rtt ri >? rtt rj).

(** [sort.Slice(results, func(i, j int) bool { ... })] *)
Definition rank (c : SrvLsCmd) (rs : list result) : list result :=
  sort_Slice (less c) rs.

(** ** The tables

    A cell is what [AddRow] receives.  The strings made by go-humanize, by
    [fmt.Sprintf] and by the duration helpers are kept as the call that makes
    them, on the converted argument. *)

Inductive cell :=
| CString (s : string)
| CInt (z : Z)
| CComma (z : Z)                (* humanize.Comma *)
| CIBytes (z : Z)               (* humanize.IBytes *)
| CSprintf_0f (q : Q)           (* fmt.Sprintf("%.0f", _) *)
| ChumanizeDuration (d : Z)     (* humanizeDuration *)
| CRound (d unit : Z).          (* Duration.Round *)

Inductive line :=
| Row (cells : list cell)
| Separator.

Record table := { title : string; headers : list string; lines : list line }.

Definition newTableWriter (t : string) : table :=
  {| title := t; headers := []; lines := [] |}.
Definition AddHeaders (hs : list string) (t : table) : table :=
  {| title := title t; headers := hs; lines := lines t |}.
Definition AddRow (cells : list cell) (t : table) : table :=
  {| title := title t; headers := headers t; lines := lines t ++ [Row cells] |}.
Definition AddSeparator (t : table) : table :=
  {| title := title t; headers := headers t; lines := lines t ++ [Separator] |}.

(** [t.Sub(u)], which saturates at the ends of [int64]. *)
Definition time_Sub (t u : Z) : Z := Z.max (- 2 ^ 63) (Z.min (2 ^ 63 - 1) (t - u)).

Definition Millisecond : Z := 1000000.

Definition server_overview_headers : list string :=
  ["Name"; "Cluster"; "Host"; "Version"; "JS"; "Conns"; "Subs"; "Routes";
   "GWs"; "Mem"; "CPU %"; "Cores"; "Slow"; "Uptime"; "RTT"].

Definition jsEnabled (ssm : ServerStatsMsg) : string :=
  if JetStream (Server ssm) then
    if negb (String.eqb (Domain (Server ssm)) "") then Domain (Server ssm) else "yes"
  else "no".

(** The argument list of [table.AddRow] in the loop over [results]. *)
Definition server_row (cName cHost : string) (r : result) : list cell :=
  let ssm := msg r in
  [ CString cName;
    CString (Cluster (Server ssm));
    CString cHost;
    CString (Version (Server ssm));
    CString (jsEnabled ssm);
    CComma (wrap_int64 (Connections (Stats ssm)));
    CComma (wrap_int64 (NumSubs (Stats ssm)));
    CInt (len (Routes (Stats ssm)));
    CInt (len (Gateways (Stats ssm)));
    CIBytes (wrap_uint64 (Mem (Stats ssm)));
    CSprintf_0f (CPU (Stats ssm));
    CInt (Cores (Stats ssm));
    CInt (SlowConsumers (Stats ssm));
    ChumanizeDuration (time_Sub (Time (Server ssm)) (Start (Stats ssm)));
    CRound (rtt r) Millisecond ].

(** The argument list of the [table.AddRow] after the separator. *)
Definition totals_row (st : accumulators) : list cell :=
  [ CString "";
    CInt (Z.of_nat (size (clusters st)));
    CInt (servers st);
    CString "";
    CInt (js st);
    CComma (wrap_int64 (connections st));
    CComma (wrap_int64 (subs st));
    CString ""; CString "";
    CIBytes (wrap_uint64 (memory st));
    CString "";
    CString "";
    CComma (slow st);
    CString "";
    CString "" ].

(** [for i, ssm := range results { table.AddRow(cNames[i], ..., cHosts[i], ...) }]:
    [None] is the index-out-of-range panic of [cNames[i]] or [cHosts[i]]. *)
Fixpoint add_server_rows (cNames cHosts : list string) (i : nat)
    (rs : list result) (t : table) : option table :=
  match rs with
  | [] => Some t
  | r :: rs' =>
      match cNames !! i, cHosts !! i with
      | Some n, Some h => add_server_rows cNames cHosts (S i) rs' (AddRow (server_row n h r) t)
      | _, _ => None
      end
  end.

(** ** [showClusters]

    Go ranges over a map in an order it leaves open; the order of
    [map_to_list] stands for the one taken. *)
Definition showClusters (cl : gmap string srvListCluster) : table :=
  let clusters := sort_Slice (fun a b => conns a <? conns b) (snd <$> map_to_list cl) in
  let t := AddHeaders ["Cluster"; "Node Count"; "Outgoing Gateways";
                       "Incoming Gateways"; "Connections"]
             (newTableWriter "Cluster Overview") in
  let t := fold_left (fun t c =>
             AddRow [CString (name c); CInt (len (nodes c)); CInt (gwOut c);
                     CInt (gwIn c); CInt (conns c)] t) clusters t in
  let in_ := fold_left (fun acc c => int_add acc (gwIn c)) clusters 0 in
  let out := fold_left (fun acc c => int_add acc (gwOut c)) clusters 0 in
  let nodes_ := fold_left (fun acc c => int_add acc (len (nodes c))) clusters 0 in
  let conns_ := fold_left (fun acc c => int_add acc (conns c)) clusters 0 in
  AddRow [CString ""; CInt nodes_; CInt out; CInt in_; CInt conns_] (AddSeparator t).

(** ** [SrvLsCmd.list] *)

(** What the process writes to its standard output. *)
Inductive printed :=
| PrintJSON (rs : list result)       (* printJSON(results) *)
| PrintTable (t : table)             (* fmt.Print(table.Render()) *)
| PrintNewline.                      (* fmt.Println() *)

(** How [list] ends: the value it returns with what was printed before, a
    panic, or the exit taken inside the callback. *)
Inductive outcome :=
| Return_nil (out : list printed)
| Return_error (err : string)
| Panic
| Exit (logged : string) (code : Z).

Definition no_results_error : string :=
  "no results received, ensure the account used has system privileges and appropriate permissions".

Section List.
Variable json_Unmarshal : list byte -> string + ServerStatsMsg.
(** [compactStrings] of the package (cli/util.go, not among the sources). *)
Variable compactStrings : list string -> list string.

(** [list] from [if len(results) == 0] to its end. *)
Definition report (c : SrvLsCmd) (st : accumulators) : outcome :=
  if (len (results st) =? 0) then Return_error no_results_error
  else if json c then Return_nil [PrintJSON (results st)]
  else
    let results := rank c (results st) in
    let t := AddHeaders server_overview_headers (newTableWriter "Server Overview") in
    let names := Name ∘ Server ∘ msg <$> results in
    let hosts := Host ∘ Server ∘ msg <$> results in
    let cNames := if compact c then compactStrings names else names in
    let cHosts := if compact c then compactStrings hosts else hosts in
    match add_server_rows cNames cHosts 0 results t with
    | None => Panic
    | Some t =>
        let t := AddRow (totals_row st) (AddSeparator t) in
        Return_nil (PrintTable t ::
                    if (0 <? Z.of_nat (size (clusters st)))
                    then [PrintNewline; PrintTable (showClusters (clusters st))]
                    else [])
    end.

(** [list], once the connection is there: [newNatsConn] gave [conn_err]
    (no error when [None]), and [arrivals] are the replies that reach the
    inbox before the timeout. *)
Definition SrvLsCmd_list (c : SrvLsCmd) (conn_err : option string)
    (arrivals : list reply) : outcome :=
  match conn_err with
  | Some err => Return_error err
  | None =>
      match doReqAsync json_Unmarshal (wrap_int64 (expect c)) arrivals start_of_run with
      | Exited logged code => Exit logged code
      | Running st => report c st
      end
  end.
End List.

(** ** The orders a ranking is measured by

    The basis of every sort key, as the table of sort keys gives it. *)

Inductive metric :=
| by_conns | by_subs | by_routes | by_gws | by_mem | by_cpu | by_slow.

Definition metric_keys (m : metric) : list string :=
  match m with
  | by_conns => ["conns"; "conn"]
  | by_subs => ["subs"; "sub"]
  | by_routes => ["routes"; "route"]
  | by_gws => ["gws"; "gw"]
  | by_mem => ["mem"]
  | by_cpu => ["cpu"]
  | by_slow => ["slow"]
  end.

Definition metric_le (m : metric) (a b : result) : Prop :=
  match m with
  | by_conns => Connections (Stats (msg a)) <= Connections (Stats (msg b))
  | by_subs => NumSubs (Stats (msg a)) <= NumSubs (Stats (msg b))
  | by_routes => len (Routes (Stats (msg a))) <= len (Routes (Stats (msg b)))
  | by_gws => len (Gateways (Stats (msg a))) <= len (Gateways (Stats (msg b)))
  | by_mem => Mem (Stats (msg a)) <= Mem (Stats (msg b))
  | by_cpu => (CPU (Stats (msg a)) <= CPU (Stats (msg b)))%Q
  | by_slow => SlowConsumers (Stats (msg a)) <= SlowConsumers (Stats (msg b))
  end.




Definition descending (le : result -> result -> Prop) (l : list result) : Prop :=
  StronglySorted (flip le) l.

(** The keys the [switch] has a case for. *)
Definition recognized_keys : list string :=
  ["name"; "conns"; "conn"; "subs"; "sub"; "routes"; "route"; "gws"; "gw";
   "mem"; "cpu"; "slow"; "uptime"].

(** The value a record is ranked by under the sort key of [c]. *)
Inductive key_value :=
| KName (s : string)
| KInt (z : Z)
| KFloat (q : Q).

Definition sort_key_value (c : SrvLsCmd) (r : result) : key_value :=
  let stat := Stats (msg r) in
  if sort_is c ["name"] then KName (Name (Server (msg r)))
  else if sort_is c ["conns"; "conn"] then KInt (Connections stat)
  else if sort_is c ["subs"; "sub"] then KInt (NumSubs stat)
  else if sort_is c ["routes"; "route"] then KInt (len (Routes stat))
  else if sort_is c ["gws"; "gw"] then KInt (len (Gateways stat))
  else if sort_is c ["mem"] then KInt (Mem stat)
  else if sort_is c ["cpu"] then KFloat (CPU stat)
  else if sort_is c ["slow"] then KInt (SlowConsumers stat)
  else if sort_is c ["uptime"] then KInt (Start stat)
  else KInt (rtt r).

Definition key_value_eqb (v w : key_value) : bool :=
  match v, w with
  | KName s, KName t => String.eqb s t
  | KInt x, KInt y => x =? y
  | KFloat p, KFloat q => Qeq_bool p q
  | _, _ => false
  end.

(** [a] and [b] tie under the sort key of [c]. *)
Definition same_key (c : SrvLsCmd) (a b : result) : bool :=
  key_value_eqb (sort_key_value c a) (sort_key_value c b).

(** Records that tie keep the order in which they arrived. *)
Definition ties_keep_arrival_order (c : SrvLsCmd) (rs : list result) : Prop :=
  forall x : result,
    List.filter (same_key c x) (rank c rs) = List.filter (same_key c x) rs.

(** ** Runs of the aggregation step *)

(** The callback from [mu.Lock()] on, over decoded replies in the order in
    which they are served. *)
Definition feed (rs : list (ServerStatsMsg * Z)) (st : accumulators) : accumulators :=
  fold_left (fun st r => onRecord r.1 r.2 st) rs st.

(** The sum, in the integers, of a field over records. *)
Definition total {R : Type} (f : R -> Z) (rs : list R) : Z :=
  foldr (fun r acc => f r + acc) 0 rs.

(** The accumulators say of the collected records what their names say. *)
Record agrees_with_results (st : accumulators) : Prop := {
  agrees_servers : servers st = wrap_int64 (len (results st));
  agrees_connections :
    connections st = wrap_int64 (total (Connections ∘ Stats ∘ msg) (results st));
  agrees_memory : memory st = wrap_int64 (total (Mem ∘ Stats ∘ msg) (results st));
  agrees_slow :
    slow st = wrap_int64 (total (SlowConsumers ∘ Stats ∘ msg) (results st));
  agrees_subs : subs st = wrap_uint32 (total (NumSubs ∘ Stats ∘ msg) (results st))
}.

(** Two cluster entries with the same sums and the same nodes, in whatever
    order the nodes were appended. *)
Definition same_cluster (e f : srvListCluster) : Prop :=
  name e = name f /\ Permutation (nodes e) (nodes f) /\
  gwOut e = gwOut f /\ gwIn e = gwIn f /\ conns e = conns f.

(** The same totals and, cluster by cluster, the same entry up to the order
    of its nodes. *)
Definition same_rollups (s t : accumulators) : Prop :=
  servers s = servers t /\ connections s = connections t /\
  memory s = memory t /\ slow s = slow t /\ subs s = subs t /\ js s = js t /\
  forall k, option_Forall2 same_cluster (clusters s !! k) (clusters t !! k).

(** The entry a record finds for its cluster, the fresh one when there is
    none yet. *)
Definition entry_of (cl : gmap string srvListCluster) (k : string) : srvListCluster :=
  default {| name := k; nodes := []; gwOut := 0; gwIn := 0; conns := 0 |} (cl !! k).

(** What one record makes of the entry of its cluster. *)
Definition bump (ssm : ServerStatsMsg) (e : srvListCluster) : srvListCluster :=
  {| name := name e;
     nodes := nodes e ++ [Name (Server ssm)];
     gwOut := int_add (gwOut e) (len (Gateways (Stats ssm)));
     gwIn := add_inbound (gwIn e) (Gateways (Stats ssm));
     conns := int_add (conns e) (Connections (Stats ssm)) |}.

(** ** Sample records *)

Definition sample_info (n cl : string) : ServerInfo :=
  {| Name := n; Host := "10.0.0.1"; Version := "2.9.0"; Cluster := cl;
     Domain := ""; JetStream := false; Time := 0 |}.

Definition sample_stats (cn mem : Z) : ServerStats :=
  {| Start := 0; Mem := mem; Cores := 4; CPU := 0; Connections := cn;
     NumSubs := 0; SlowConsumers := 0; Routes := []; Gateways := [] |}.

Definition sample (n cl : string) (cn mem d : Z) : result :=
  {| msg := {| Server := sample_info n cl; Stats := sample_stats cn mem |};
     rtt := d |}.

Definition cmd (key : string) (r j : bool) : SrvLsCmd :=
  {| expect := 0; json := j; sort := key; reverse := r; compact := false |}.

(** The three replies of the scenario: 5, 20 and 5 connections, from the
    clusters A, B and A. *)
Definition three_replies : list (ServerStatsMsg * Z) :=
  [ (msg (sample "n1" "A" 5 0 0), 1);
    (msg (sample "n2" "B" 20 0 0), 2);
    (msg (sample "n3" "A" 5 0 0), 3) ].

(** ** Reading a row by its header *)

Fixpoint index_of (h : string) (hs : list string) : option nat :=
  match hs with
  | [] => None
  | h' :: hs' => if String.eqb h h' then Some O else S <$> index_of h hs'
  end.

(** The cell of a row of the server table that stands under header [h]. *)
Definition cell_under (h : string) (row : list cell) : option cell :=
  i ← index_of h server_overview_headers; row !! i.

Definition blank : cell := CString "".

(** The columns the totals row is said to leave blank. *)
Definition columns_said_blank : list string :=
  ["Name"; "Host"; "Version"; "Routes"; "GWs"; "CPU %"; "Cores"; "Uptime"].

(** A stand-in for [json.Unmarshal] in the examples: a payload of one byte
    decodes to a server named s with that many bytes of memory, any other
    payload is refused. *)
Definition one_byte_Unmarshal (data : list byte) : string + ServerStatsMsg :=
  match data with
  | [b] => inr (msg (sample "s" "" 0 (Z.of_N (Byte.to_N b)) 0))
  | _ => inl "unexpected end of JSON input"
  end.

(** ** More of the ranking *)

(** The command with its [reverse] flag set to [b]. *)
Definition with_reverse (b : bool) (c : SrvLsCmd) : SrvLsCmd :=
  {| expect := expect c; json := json c; sort := sort c; reverse := b;
     compact := compact c |}.



(** ** The cluster table against the collected records *)

(** The records that name cluster [k], in their order of arrival. *)
Definition in_cluster (k : string) (r : result) : bool :=
  String.eqb (Cluster (Server (msg r))) k.

Definition members (k : string) (rs : list result) : list result :=
  List.filter (in_cluster k) rs.

Definition names_a_cluster (r : result) : bool :=
  negb (String.eqb (Cluster (Server (msg r))) "").

Definition has_JetStream (r : result) : bool := JetStream (Server (msg r)).

(** The inbound connections over the gateways of one record. *)
Definition inbound (r : result) : Z := total NumInbound (Gateways (Stats (msg r))).

(** The entry that the records [ms] of cluster [k] add up to. *)
Definition cluster_of (k : string) (ms : list result) : srvListCluster :=
  {| name := k;
     nodes := Name ∘ Server ∘ msg <$> ms;
     gwOut := wrap_int64 (total (len ∘ Gateways ∘ Stats ∘ msg) ms);
     gwIn := wrap_int64 (total inbound ms);
     conns := wrap_int64 (total (Connections ∘ Stats ∘ msg) ms) |}.

Definition expected_cluster (k : string) (rs : list result) : option srvListCluster :=
  if String.eqb k "" then None
  else match members k rs with
       | [] => None
       | ms => Some (cluster_of k ms)
       end.

Definition clusters_follow_results (st : accumulators) : Prop :=
  forall k, clusters st !! k = expected_cluster k (results st).

(** A second stand-in for [json.Unmarshal] in the examples: a payload of
    one byte decodes to the record found at that place of [table], any other
    payload is refused. *)
Definition table_Unmarshal (table : list ServerStatsMsg) (data : list byte)
    : string + ServerStatsMsg :=
  match data with
  | [b] =>
      match table !! N.to_nat (Byte.to_N b) with
      | Some ssm => inr ssm
      | None => inl "unexpected end of JSON input"
      end
  | _ => inl "unexpected end of JSON input"
  end.

(** The three replies of the scenario as they arrive. *)
Definition three_arrivals : list reply :=
  [ {| data := [x00]; since_start := 1 |};
    {| data := [x01]; since_start := 2 |};
    {| data := [x02]; since_start := 3 |} ].

(** ** The rows of the two tables *)



(** The argument list of [table.AddRow] in the loop of [showClusters]. *)
Definition cluster_row (c : srvListCluster) : list cell :=
  [CString (name c); CInt (len (nodes c)); CInt (gwOut c); CInt (gwIn c); CInt (conns c)].

Definition cluster_overview_headers : list string :=
  ["Cluster"; "Node Count"; "Outgoing Gateways"; "Incoming Gateways"; "Connections"].

(** The entries of the map, in the order of [map_to_list]. *)
Definition cluster_values (cl : gmap string srvListCluster) : list srvListCluster :=
  snd <$> map_to_list cl.

(** [showClusters] when [for c := range cl] visits the entries in the order
    [order]. *)
Definition showClusters_in (order : list srvListCluster) : table :=
  let clusters := sort_Slice (fun a b => conns a <? conns b) order in
  let t := AddHeaders cluster_overview_headers (newTableWriter "Cluster Overview") in
  let t := fold_left (fun t c => AddRow (cluster_row c) t) clusters t in
  let in_ := fold_left (fun acc c => int_add acc (gwIn c)) clusters 0 in
  let out := fold_left (fun acc c => int_add acc (gwOut c)) clusters 0 in
  let nodes_ := fold_left (fun acc c => int_add acc (len (nodes c))) clusters 0 in
  let conns_ := fold_left (fun acc c => int_add acc (conns c)) clusters 0 in
  AddRow [CString ""; CInt nodes_; CInt out; CInt in_; CInt conns_] (AddSeparator t).


(** The records that carry a cluster name, in their order of arrival. *)
Definition named (rs : list result) : list result := List.filter names_a_cluster rs.

(** The sum of field [F] over the entries matches, as an [int], the sum of
    [G] over the records that carry a cluster name. *)
Definition sums_match (F : srvListCluster -> Z) (G : result -> Z)
    (st : accumulators) : Prop :=
  wrap_int64 (total F (cluster_values (clusters st)))
  = wrap_int64 (total G (named (results st))).

(** ** The [sort] flag *)

(** [strings.Split(s, sep)] for a separator of one byte. *)
Fixpoint strings_Split (s : string) (sep : Ascii.ascii) : list string :=
  match s with
  | EmptyString => [""]
  | String ch s' =>
      if Ascii.eqb ch sep then "" :: strings_Split s' sep
      else match strings_Split s' sep with
           | p :: ps => String ch p :: ps
           | [] => [String ch ""]
           end
  end.

(** The values [EnumVar] lets the [sort] flag take; 44 is the comma. *)
Definition sort_enum : list string :=
  strings_Split "name,conns,conn,subs,sub,routes,route,gw,mem,cpu,slow,uptime,rtt"
    (Ascii.ascii_of_nat 44).

(** * Facts *)

(** ** [sort.Slice] as a list function *)

Section SortSliceFacts.
Context {A : Type}.
Variable less : A -> A -> bool.

Lemma length_sink (x : A) (rp : list A) :
  length (sink less x rp) = S (length rp).
Proof.
  induction rp as [|p rp IH]; cbn; [reflexivity|].
  destruct (less x p); cbn; [rewrite IH|]; reflexivity.
Qed.

Lemma insertionSort_inner_sink (pre suf : list A) (x : A) :
  insertionSort_inner less 0 (pre ++ x :: suf) (length pre)
  = List.rev (sink less x (List.rev pre)) ++ suf.
Proof.
  revert suf. induction pre as [|p pre IH] using rev_ind; intros suf.
  - reflexivity.
  - rewrite length_app, Nat.add_comm. cbn [length Nat.add insertionSort_inner].
    assert (Hx : (((pre ++ [p]) ++ x :: suf) !! S (length pre)) = Some x).
    { rewrite <- app_assoc. cbn [app].
      rewrite lookup_app_r by lia.
      replace (S (length pre) - length pre)%nat with 1%nat by lia.
      reflexivity. }
    assert (Hp : (((pre ++ [p]) ++ x :: suf) !! length pre) = Some p).
    { rewrite <- app_assoc. cbn [app].
      rewrite lookup_app_r by lia. rewrite Nat.sub_diag. reflexivity. }
    unfold Less, Swap. rewrite Hx, Hp. cbn [Nat.ltb Nat.leb andb].
    rewrite rev_app_distr. cbn [List.rev app sink].
    destruct (less x p).
    + assert (Hsw : <[S (length pre):=p]> (<[length pre:=x]> ((pre ++ [p]) ++ x :: suf))
                    = pre ++ x :: p :: suf).
      { rewrite <- app_assoc. cbn [app].
        rewrite insert_app_r_alt by lia. rewrite Nat.sub_diag. cbn.
        rewrite insert_app_r_alt by lia.
        replace (S (length pre) - length pre)%nat with 1%nat by lia.
        reflexivity. }
      rewrite Hsw, IH. cbn [List.rev]. rewrite <- app_assoc. reflexivity.
    + cbn [List.rev]. rewrite rev_involutive.
      rewrite <- !app_assoc. reflexivity.
Qed.

Lemma insertionSort_outer_sink (suf pre : list A) :
  fold_left (insertionSort_inner less 0) (seq (length pre) (length suf)) (pre ++ suf)
  = List.rev (sink_all less (List.rev pre) suf).
Proof.
  revert pre. induction suf as [|x suf IH]; intros pre.
  - cbn. rewrite app_nil_r, rev_involutive. reflexivity.
  - cbn [length seq fold_left]. rewrite insertionSort_inner_sink.
    unfold sink_all. cbn [fold_left]. fold (sink_all less (sink less x (List.rev pre)) suf).
    specialize (IH (List.rev (sink less x (List.rev pre)))).
    rewrite rev_involutive in IH. rewrite <- IH.
    rewrite length_rev, length_sink, length_rev. reflexivity.
Qed.

(** [sort.Slice] on the insertion path is the list insertion sort that
    sinks each element in turn. *)
Lemma sort_Slice_sink (data : list A) :
  sort_Slice less data = List.rev (sink_all less [] data).
Proof.
  unfold sort_Slice, insertionSort_func. destruct data as [|x data].
  - reflexivity.
  - cbn [length Nat.add Nat.sub].
    replace (length data - 0)%nat with (length data) by lia.
    change (x :: data) with ([x] ++ data).
    change 1%nat with (length [x]).
    rewrite insertionSort_outer_sink. reflexivity.
Qed.

Lemma sink_Permutation (x : A) (rp : list A) :
  Permutation (sink less x rp) (x :: rp).
Proof.
  induction rp as [|p rp IH]; cbn; [reflexivity|].
  destruct (less x p); [|reflexivity].
  rewrite IH. apply perm_swap.
Qed.

Lemma sink_all_Permutation (l rp : list A) :
  Permutation (sink_all less rp l) (List.rev l ++ rp).
Proof.
  revert rp. induction l as [|x l IH]; intros rp; cbn; [reflexivity|].
  unfold sink_all in *. rewrite IH, sink_Permutation, <- app_assoc.
  reflexivity.
Qed.

Lemma sort_Slice_Permutation (data : list A) :
  Permutation (sort_Slice less data) data.
Proof.
  rewrite sort_Slice_sink, <- Permutation_rev, sink_all_Permutation.
  rewrite app_nil_r. symmetry. apply Permutation_rev.
Qed.

Lemma sink_Sorted (x : A) (rp : list A) :
  Sorted (flip (may_precede less)) rp -> Sorted (flip (may_precede less)) (sink less x rp).
Proof.
  induction 1 as [|p rp Hs IH Hhd]; cbn.
  - repeat constructor.
  - destruct (less x p) eqn:Hxp.
    + constructor; [exact IH|].
      destruct Hhd as [|q rp Hq]; cbn.
      * constructor. right. exact Hxp.
      * destruct (less x q); constructor; [exact Hq | right; exact Hxp].
    + constructor; [constructor; assumption|].
      constructor. left. exact Hxp.
Qed.

Lemma sink_all_Sorted (l rp : list A) :
  Sorted (flip (may_precede less)) rp -> Sorted (flip (may_precede less)) (sink_all less rp l).
Proof.
  revert rp. induction l as [|x l IH]; intros rp Hrp; cbn; [exact Hrp|].
  apply IH, sink_Sorted, Hrp.
Qed.




(** Stability: a class [P] of records none of which the comparator puts
    before another keeps its order. *)
Lemma sink_filter (P : A -> bool) (x : A) (rp : list A) :
  (forall a b, P a = true -> P b = true -> less a b = false) ->
  List.filter P (sink less x rp) = List.filter P (x :: rp).
Proof.
  intros HP. induction rp as [|p rp IH]; cbn; [reflexivity|].
  destruct (less x p) eqn:Hxp; [|reflexivity].
  cbn. rewrite IH. cbn.
  destruct (P x) eqn:Hx, (P p) eqn:Hp; try reflexivity.
  rewrite (HP x p Hx Hp) in Hxp. discriminate.
Qed.

Lemma sort_Slice_filter (P : A -> bool) (data : list A) :
  (forall a b, P a = true -> P b = true -> less a b = false) ->
  List.filter P (sort_Slice less data) = List.filter P data.
Proof.
  intros HP. rewrite sort_Slice_sink, List.filter_rev.
  assert (H : forall l rp,
    List.filter P (sink_all less rp l) = List.filter P (List.rev l ++ rp)).
  { induction l as [|x l IH]; intros rp; cbn; [reflexivity|].
    unfold sink_all in *. rewrite IH, <- app_assoc. cbn [app].
    rewrite !List.filter_app, (sink_filter P x rp HP). reflexivity. }
  rewrite H, app_nil_r, List.filter_rev, rev_involutive. reflexivity.
Qed.
End SortSliceFacts.

(** ** The comparator, key by key *)

Section StringOrder.
Import OrderedTypeEx.

Lemma string_ltb_irrefl (s : string) : String.ltb s s = false.
Proof.
  unfold String.ltb.
  replace (String.compare s s) with Eq; [reflexivity|].
  symmetry. apply String_as_OT.cmp_eq. reflexivity.
Qed.


End StringOrder.

Lemma float64_lt_true (p q : Q) : float64_lt p q = true -> (p <= q)%Q.
Proof.
  unfold float64_lt. intros H. apply negb_true_iff in H.
  apply Qlt_le_weak, Qnot_le_lt. intros Hle.
  apply Qle_bool_iff in Hle. congruence.
Qed.

Lemma float64_lt_false (p q : Q) : float64_lt p q = false -> (q <= p)%Q.
Proof.
  unfold float64_lt. intros H. apply negb_false_iff in H.
  apply Qle_bool_iff. exact H.
Qed.

Lemma float64_lt_Qeq (p q : Q) : (p == q)%Q -> float64_lt p q = false.
Proof.
  intros H. unfold float64_lt. apply negb_false_iff, Qle_bool_iff.
  rewrite H. apply Qle_refl.
Qed.










(** ** Ranking *)






Lemma key_value_eqb_tie (v w u : key_value) :
  key_value_eqb u v = true -> key_value_eqb u w = true -> key_value_eqb v w = true.
Proof.
  destruct u, v, w; cbn; try discriminate.
  - intros H1 H2. apply String.eqb_eq in H1, H2. subst. apply String.eqb_refl.
  - intros H1 H2. apply Z.eqb_eq in H1, H2. subst. apply Z.eqb_refl.
  - intros H1 H2. apply Qeq_bool_iff in H1, H2. apply Qeq_bool_iff.
    rewrite <- H1, <- H2. reflexivity.
Qed.

(** Where the comparator is the strict order itself, two records that tie
    are not put one before the other. *)
Lemma less_strict_on_ties (c : SrvLsCmd) (a b : result) :
  sort c = "name" \/ reverse c = true ->
  same_key c a b = true -> less c a b = false.
Proof.
  intros Hc. unfold same_key, sort_key_value, less.
  assert (Hrev : sort_is c ["name"] = false -> forall v, rev c v = v).
  { intros Hname v. destruct Hc as [Hs|Hr].
    - unfold sort_is in Hname. rewrite Hs in Hname. discriminate.
    - unfold rev. rewrite Hr. reflexivity. }
  destruct (sort_is c ["name"]).
  { cbn. intros H. apply String.eqb_eq in H. rewrite H. apply string_ltb_irrefl. }
  specialize (Hrev eq_refl).
  repeat match goal with
  | |- context [if sort_is c ?ks then _ else _] => destruct (sort_is c ks)
  end; cbn; rewrite Hrev; intros H;
    try (apply Z.eqb_eq in H; rewrite H;
         first [apply Z.ltb_irrefl | apply Z.gtb_ltb, Z.ltb_irrefl | idtac]).
  all: try (rewrite Z.gtb_ltb; apply Z.ltb_irrefl).
  apply float64_lt_Qeq, Qeq_bool_iff, H.
Qed.

(** C1, as the code has it. Up to [maxInsertion] records, where [sort.Slice]
    sorts by insertion, tied records keep their arrival order when the key
    is name or [reverse] is on: in both cases the comparator is a strict
    order. *)
Theorem rank_keeps_ties_when_strict (c : SrvLsCmd) (rs : list result) :
  sort c = "name" \/ reverse c = true ->
  (length rs <= maxInsertion)%nat ->
  ties_keep_arrival_order c rs.
Proof.
  intros Hc _ x. unfold rank. apply sort_Slice_filter.
  intros a b Ha Hb. apply less_strict_on_ties; [exact Hc|].
  unfold same_key in *. eapply key_value_eqb_tie; eassumption.
Qed.

Lemma rank_keeps_ties_when_strict_witness :
  ties_keep_arrival_order (cmd "mem" true false)
    [sample "a" "" 0 5 1; sample "b" "" 0 5 2; sample "c" "" 0 3 3].
Proof.
  apply rank_keeps_ties_when_strict.
  - right. reflexivity.
  - unfold maxInsertion. cbn. lia.
Defined.

(** C1 as worded fails: with [reverse] off the comparator of the key mem is
    [!(a < b)], which holds between two records of equal memory, so the
    later one is moved in front of the earlier one. *)
Lemma rank_swaps_ties_when_reverse_off :
  rank (cmd "mem" false false) [sample "a" "" 0 5 1; sample "b" "" 0 5 2]
    = [sample "b" "" 0 5 2; sample "a" "" 0 5 1] /\
  ~ ties_keep_arrival_order (cmd "mem" false false)
      [sample "a" "" 0 5 1; sample "b" "" 0 5 2].
Proof.
  split; [reflexivity|].
  intros H. specialize (H (sample "a" "" 0 5 1)). vm_compute in H. discriminate.
Qed.

(** ** Fixed-width sums *)

Lemma wrap_int64_idemp_l (a b : Z) : wrap_int64 (wrap_int64 a + b) = wrap_int64 (a + b).
Proof.
  unfold wrap_int64. f_equal.
  replace ((a + 2 ^ 63) mod 2 ^ 64 - 2 ^ 63 + b + 2 ^ 63)
    with ((a + 2 ^ 63) mod 2 ^ 64 + b) by lia.
  rewrite Zplus_mod_idemp_l. f_equal. lia.
Qed.

Lemma wrap_int64_id (z : Z) : is_int64 z -> wrap_int64 z = z.
Proof.
  unfold is_int64, wrap_int64. intros H.
  rewrite Z.mod_small by lia. lia.
Qed.

Lemma wrap_int64_range (z : Z) : is_int64 (wrap_int64 z).
Proof.
  unfold is_int64, wrap_int64.
  pose proof (Z.mod_pos_bound (z + 2 ^ 63) (2 ^ 64) ltac:(lia)). lia.
Qed.

Lemma wrap_uint32_idemp_l (a b : Z) : wrap_uint32 (wrap_uint32 a + b) = wrap_uint32 (a + b).
Proof. unfold wrap_uint32. apply Zplus_mod_idemp_l. Qed.


Lemma int_add_swap (a x y : Z) : int_add (int_add a x) y = int_add (int_add a y) x.
Proof.
  unfold int_add. rewrite !wrap_int64_idemp_l. f_equal. lia.
Qed.

Lemma uint32_add_swap (a x y : Z) :
  uint32_add (uint32_add a x) y = uint32_add (uint32_add a y) x.
Proof.
  unfold uint32_add. rewrite !wrap_uint32_idemp_l. f_equal. lia.
Qed.

Lemma total_snoc {R : Type} (f : R -> Z) (rs : list R) (r : R) :
  total f (rs ++ [r]) = total f rs + f r.
Proof.
  unfold total. induction rs as [|x rs IH]; cbn; [lia|]. rewrite IH. lia.
Qed.

Lemma add_inbound_int_add (l : list GatewayStat) (g x : Z) :
  add_inbound (int_add g x) l = int_add (add_inbound g l) x.
Proof.
  revert g. unfold add_inbound.
  induction l as [|y l IH]; intros g; cbn; [reflexivity|].
  rewrite <- IH. f_equal. apply int_add_swap.
Qed.

Lemma add_inbound_comm (la lb : list GatewayStat) (g : Z) :
  add_inbound (add_inbound g la) lb = add_inbound (add_inbound g lb) la.
Proof.
  revert g. induction la as [|x la IH]; intros g; [reflexivity|].
  change (add_inbound g (x :: la)) with (add_inbound (int_add g (NumInbound x)) la).
  rewrite IH.
  change (add_inbound (add_inbound g lb) (x :: la))
    with (add_inbound (int_add (add_inbound g lb) (NumInbound x)) la).
  rewrite add_inbound_int_add. reflexivity.
Qed.

(** ** One record *)

Lemma update_cluster_bump (ssm : ServerStatsMsg) (cl : gmap string srvListCluster) :
  update_cluster ssm cl
  = <[Cluster (Server ssm) := bump ssm (entry_of cl (Cluster (Server ssm)))]> cl.
Proof.
  unfold update_cluster, entry_of, bump.
  destruct (cl !! Cluster (Server ssm)); reflexivity.
Qed.

Lemma clusters_onRecord (ssm : ServerStatsMsg) (since : Z) (st : accumulators) :
  clusters (onRecord ssm since st)
  = if String.eqb (Cluster (Server ssm)) "" then clusters st
    else update_cluster ssm (clusters st).
Proof. reflexivity. Qed.

(** C4. One application of the aggregation step adds 1 to the server count
    and the record's connections to the connection total, both as Go adds
    [int]s, so exactly when the sum stays an [int]; a record with a cluster
    name writes the one entry of that name, whose node list is the former
    one (the empty one for a new entry) with one name more, and leaves the
    other entries alone; a record without a cluster name leaves the whole
    table alone.  The three replies of the scenario give the totals 30 and
    3, and 10 connections on 2 nodes for A, 20 on 1 node for B. *)
Theorem onRecord_once (ssm : ServerStatsMsg) (since : Z) (st : accumulators) :
  let st' := onRecord ssm since st in
  let k := Cluster (Server ssm) in
  (servers st' = int_add (servers st) 1 /\
   (is_int64 (servers st + 1) -> servers st' = servers st + 1)) /\
  (connections st' = int_add (connections st) (Connections (Stats ssm)) /\
   (is_int64 (connections st + Connections (Stats ssm)) ->
    connections st' = connections st + Connections (Stats ssm))) /\
  (k <> "" ->
     exists e, clusters st' = <[k := e]> (clusters st) /\
       length (nodes e) = S (length (nodes (entry_of (clusters st) k))) /\
       (forall k', k' <> k -> clusters st' !! k' = clusters st !! k')) /\
  (k = "" -> clusters st' = clusters st) /\
  (let run := feed three_replies start_of_run in
   connections run = 30 /\ servers run = 3 /\
   (conns <$> clusters run !! "A") = Some 10 /\
   (length ∘ nodes <$> clusters run !! "A") = Some 2%nat /\
   (conns <$> clusters run !! "B") = Some 20 /\
   (length ∘ nodes <$> clusters run !! "B") = Some 1%nat).
Proof.
  cbv zeta. repeat split.
  - intros H. cbn. unfold int_add. apply wrap_int64_id, H.
  - intros H. cbn. unfold int_add. apply wrap_int64_id, H.
  - intros Hk. rewrite clusters_onRecord.
    apply String.eqb_neq in Hk. rewrite Hk, update_cluster_bump.
    eexists. split; [reflexivity|]. split.
    + cbn. rewrite length_app. cbn. lia.
    + intros k' Hk'. apply lookup_insert_ne. congruence.
  - intros Hk. rewrite clusters_onRecord, Hk. reflexivity.
Qed.

Lemma onRecord_once_witness :
  servers (onRecord (msg (sample "n1" "A" 5 0 0)) 1 start_of_run) = 0 + 1 /\
  connections (onRecord (msg (sample "n1" "A" 5 0 0)) 1 start_of_run) = 0 + 5 /\
  exists e,
    clusters (onRecord (msg (sample "n1" "A" 5 0 0)) 1 start_of_run) = <["A" := e]> ∅ /\
    length (nodes e) = 1%nat.
Proof.
  pose proof (onRecord_once (msg (sample "n1" "A" 5 0 0)) 1 start_of_run) as H.
  cbv zeta in H. destruct H as ((_ & Hs) & (_ & Hc) & Hk & _).
  split; [apply Hs; unfold is_int64; cbn; lia|].
  split; [apply Hc; unfold is_int64; cbn; lia|].
  destruct Hk as (e & He & Hn & _); [discriminate|].
  exists e. split; [exact He | exact Hn].
Defined.

(** ** Order of arrival *)

Lemma same_cluster_refl (e : srvListCluster) : same_cluster e e.
Proof. unfold same_cluster. repeat split; reflexivity. Qed.

Lemma same_cluster_trans (e f g : srvListCluster) :
  same_cluster e f -> same_cluster f g -> same_cluster e g.
Proof.
  unfold same_cluster. intros (? & ? & ? & ? & ?) (? & ? & ? & ? & ?).
  repeat split; try congruence. etransitivity; eassumption.
Qed.

Lemma same_rollups_refl (s : accumulators) : same_rollups s s.
Proof.
  unfold same_rollups. repeat split.
  intros k. destruct (clusters s !! k); constructor. apply same_cluster_refl.
Qed.

Lemma same_rollups_trans (s t u : accumulators) :
  same_rollups s t -> same_rollups t u -> same_rollups s u.
Proof.
  unfold same_rollups.
  intros (? & ? & ? & ? & ? & ? & Hst) (? & ? & ? & ? & ? & ? & Htu).
  repeat split; try congruence.
  intros k. specialize (Hst k). specialize (Htu k).
  destruct Hst as [e f Hef|]; inversion Htu; subst; constructor.
  eapply same_cluster_trans; eassumption.
Qed.

Lemma bump_same_cluster (ssm : ServerStatsMsg) (e f : srvListCluster) :
  same_cluster e f -> same_cluster (bump ssm e) (bump ssm f).
Proof.
  unfold same_cluster, bump. cbn. intros (Hn & Hp & Ho & Hi & Hc).
  rewrite Hn, Ho, Hi, Hc. repeat split. apply Permutation_app_tail, Hp.
Qed.

Lemma entry_of_same_cluster (cl cl' : gmap string srvListCluster) (k : string) :
  option_Forall2 same_cluster (cl !! k) (cl' !! k) ->
  same_cluster (entry_of cl k) (entry_of cl' k).
Proof.
  unfold entry_of. intros H. destruct H; cbn; [assumption|apply same_cluster_refl].
Qed.

(** The step treats two states with the same rollups alike, whatever the
    times of arrival. *)
Lemma onRecord_same_rollups (ssm : ServerStatsMsg) (d d' : Z) (s t : accumulators) :
  same_rollups s t -> same_rollups (onRecord ssm d s) (onRecord ssm d' t).
Proof.
  unfold same_rollups. intros (Hs & Hc & Hm & Hsl & Hsu & Hj & Hcl).
  rewrite !clusters_onRecord. cbn. rewrite Hs, Hc, Hm, Hsl, Hsu, Hj.
  repeat split.
  intros k. destruct (String.eqb (Cluster (Server ssm)) ""); [apply Hcl|].
  rewrite !update_cluster_bump.
  destruct (decide (Cluster (Server ssm) = k)) as [->|Hne].
  - rewrite !lookup_insert_eq. constructor.
    apply bump_same_cluster, entry_of_same_cluster, Hcl.
  - rewrite !lookup_insert_ne by exact Hne. apply Hcl.
Qed.

Lemma bump_swap (a b : ServerStatsMsg) (e : srvListCluster) :
  same_cluster (bump a (bump b e)) (bump b (bump a e)).
Proof.
  unfold same_cluster, bump. cbn. repeat split.
  - rewrite <- !app_assoc. apply Permutation_app_head. cbn. apply perm_swap.
  - apply int_add_swap.
  - apply add_inbound_comm.
  - apply int_add_swap.
Qed.

Lemma update_cluster_swap (a b : ServerStatsMsg) (cl : gmap string srvListCluster)
    (k : string) :
  option_Forall2 same_cluster
    (update_cluster a (update_cluster b cl) !! k)
    (update_cluster b (update_cluster a cl) !! k).
Proof.
  rewrite !update_cluster_bump. unfold entry_of.
  destruct (decide (Cluster (Server a) = Cluster (Server b))) as [E|Hne].
  - rewrite E, !lookup_insert_eq, !insert_insert_eq. cbn.
    destruct (decide (Cluster (Server b) = k)) as [->|Hk].
    + rewrite !lookup_insert_eq. constructor. apply bump_swap.
    + rewrite !lookup_insert_ne by exact Hk.
      destruct (cl !! k); constructor. apply same_cluster_refl.
  - rewrite (lookup_insert_ne cl (Cluster (Server b)) (Cluster (Server a))) by congruence.
    rewrite (lookup_insert_ne cl (Cluster (Server a)) (Cluster (Server b))) by congruence.
    rewrite (insert_insert_ne cl (Cluster (Server a)) (Cluster (Server b))) by exact Hne.
    match goal with |- option_Forall2 _ ?x ?x => destruct x end;
      constructor; apply same_cluster_refl.
Qed.

Lemma opt_same_cluster_refl (o : option srvListCluster) :
  option_Forall2 same_cluster o o.
Proof. destruct o; constructor. apply same_cluster_refl. Qed.

Lemma js_swap (p q : bool) (j : Z) :
  (if p then int_add (if q then int_add j 1 else j) 1 else (if q then int_add j 1 else j))
  = (if q then int_add (if p then int_add j 1 else j) 1 else (if p then int_add j 1 else j)).
Proof. destruct p, q; reflexivity. Qed.

(** Two records served in either order leave the same rollups. *)
Lemma onRecord_swap (a b : ServerStatsMsg) (da db da' db' : Z) (s : accumulators) :
  same_rollups (onRecord a da (onRecord b db s)) (onRecord b db' (onRecord a da' s)).
Proof.
  unfold same_rollups. rewrite !clusters_onRecord. cbn.
  split; [apply int_add_swap|]. split; [apply int_add_swap|].
  split; [apply int_add_swap|]. split; [apply int_add_swap|].
  split; [apply uint32_add_swap|]. split; [apply js_swap|].
  intros k.
  destruct (String.eqb (Cluster (Server a)) ""), (String.eqb (Cluster (Server b)) "");
    try apply opt_same_cluster_refl.
  apply update_cluster_swap.
Qed.

Lemma feed_same_rollups (rs : list (ServerStatsMsg * Z)) (s t : accumulators) :
  same_rollups s t -> same_rollups (feed rs s) (feed rs t).
Proof.
  revert s t. induction rs as [|r rs IH]; intros s t H; [exact H|].
  cbn. apply IH, onRecord_same_rollups, H.
Qed.

Lemma feed_Permutation (rs rs' : list (ServerStatsMsg * Z)) :
  Permutation rs rs' ->
  forall s t, same_rollups s t -> same_rollups (feed rs s) (feed rs' t).
Proof.
  induction 1 as [|r rs rs' Hp IH|q r rs|rs rs' rs'' H1 IH1 H2 IH2]; intros s t Hst.
  - exact Hst.
  - cbn. apply IH, onRecord_same_rollups, Hst.
  - cbn. apply feed_same_rollups.
    apply (same_rollups_trans _ (onRecord r.1 r.2 (onRecord q.1 q.2 s)));
      [apply onRecord_swap|].
    apply onRecord_same_rollups, onRecord_same_rollups, Hst.
  - eapply same_rollups_trans; [apply IH1, same_rollups_refl|]. apply IH2, Hst.
Qed.

(** C5, as the code has it. Served in any order from the same state, the
    same records leave the same six totals and, for every cluster, the same
    sums over the same nodes; the node list itself follows the order of
    arrival and agrees up to that order only. *)
Theorem feed_any_order (rs rs' : list (ServerStatsMsg * Z)) (st : accumulators) :
  Permutation rs rs' ->
  same_rollups (feed rs st) (feed rs' st).
Proof. intros H. apply feed_Permutation; [exact H | apply same_rollups_refl]. Qed.

Lemma feed_any_order_witness :
  same_rollups (feed three_replies start_of_run)
               (feed (List.rev three_replies) start_of_run).
Proof. apply feed_any_order, Permutation_rev. Defined.

(** C5 as worded fails: the two nodes of cluster A, served in the two
    orders, leave two different entries for A. *)
Lemma feed_order_shows_in_nodes :
  Permutation [(msg (sample "n1" "A" 5 0 0), 1); (msg (sample "n3" "A" 5 0 0), 2)]
              [(msg (sample "n3" "A" 5 0 0), 2); (msg (sample "n1" "A" 5 0 0), 1)] /\
  clusters (feed [(msg (sample "n1" "A" 5 0 0), 1); (msg (sample "n3" "A" 5 0 0), 2)]
              start_of_run) !! "A"
  <> clusters (feed [(msg (sample "n3" "A" 5 0 0), 2); (msg (sample "n1" "A" 5 0 0), 1)]
                 start_of_run) !! "A".
Proof.
  split; [apply perm_swap|]. vm_compute. discriminate.
Qed.

(** ** The totals against the collected records *)

Lemma start_agrees : agrees_with_results start_of_run.
Proof. split; reflexivity. Qed.

Lemma onRecord_agrees (ssm : ServerStatsMsg) (since : Z) (st : accumulators) :
  agrees_with_results st -> agrees_with_results (onRecord ssm since st).
Proof.
  intros [Hs Hc Hm Hsl Hsu]. split; cbn [onRecord results servers connections
    memory slow subs]; rewrite ?total_snoc; cbn [compose msg].
  - rewrite Hs. unfold int_add, len. rewrite wrap_int64_idemp_l, length_app.
    f_equal. cbn. lia.
  - rewrite Hc. apply wrap_int64_idemp_l.
  - rewrite Hm. apply wrap_int64_idemp_l.
  - rewrite Hsl. apply wrap_int64_idemp_l.
  - rewrite Hsu. apply wrap_uint32_idemp_l.
Qed.

Section Collection.
Variable json_Unmarshal : list byte -> string + ServerStatsMsg.

Lemma deliver_agrees (rs : list reply) (st st' : accumulators) :
  deliver json_Unmarshal rs st = Running st' ->
  agrees_with_results st -> agrees_with_results st'.
Proof.
  revert st. induction rs as [|r rs IH]; intros st H Hst; cbn in H.
  - injection H as <-. exact Hst.
  - unfold callback in H. destruct (json_Unmarshal (data r)); cbn in H; [discriminate|].
    eapply IH; [exact H|]. apply onRecord_agrees, Hst.
Qed.

(** The first reply of the window that does not decode ends the run. *)
Lemma deliver_undecodable (rs : list reply) (st : accumulators) :
  Exists (fun r => exists err, json_Unmarshal (data r) = inl err) rs ->
  exists err, deliver json_Unmarshal rs st
              = Exited ("Could not decode response: " ++ err) 1.
Proof.
  intros H. revert st. induction H as [r rs (err & Hr)|r rs H IH]; intros st; cbn.
  - unfold callback. rewrite Hr. eauto.
  - unfold callback. destruct (json_Unmarshal (data r)) as [err|ssm]; cbn; eauto.
Qed.

(** Replies that all decode are all collected. *)
Lemma deliver_decodable (rs : list reply) (st : accumulators) :
  Forall (fun r => exists ssm, json_Unmarshal (data r) = inr ssm) rs ->
  exists st', deliver json_Unmarshal rs st = Running st' /\
              length (results st') = (length (results st) + length rs)%nat.
Proof.
  intros H. revert st. induction H as [|r rs (ssm & Hr) _ IH]; intros st; cbn.
  - exists st. split; [reflexivity|lia].
  - unfold callback. rewrite Hr. cbn.
    destruct (IH (onRecord ssm (since_start r) st)) as (st' & Hd & Hl).
    exists st'. split; [exact Hd|]. rewrite Hl. cbn. rewrite length_app. cbn. lia.
Qed.
End Collection.



(** Two replies of 2^32 - 1 and 2 subscriptions leave a total of 1. *)
Example subs_total_wraps :
  let busy n := {| Server := sample_info "s" "";
                   Stats := {| Start := 0; Mem := 0; Cores := 1; CPU := 0;
                               Connections := 0; NumSubs := n; SlowConsumers := 0;
                               Routes := []; Gateways := [] |} |} in
  subs (feed [(busy (2 ^ 32 - 1), 1); (busy 2, 2)] start_of_run) = 1.
Proof. reflexivity. Qed.

(** ** The command *)

Section Outcome.
Variable json_Unmarshal : list byte -> string + ServerStatsMsg.
Variable compactStrings : list string -> list string.

Lemma deliver_results (rs : list reply) (st st' : accumulators) :
  deliver json_Unmarshal rs st = Running st' ->
  exists collected,
    results st' = results st ++ collected /\
    Forall2 (fun r res => json_Unmarshal (data r) = inr (msg res) /\
                          rtt res = since_start r) rs collected.
Proof.
  revert st. induction rs as [|r rs IH]; intros st H; cbn in H.
  - injection H as <-. exists []. rewrite app_nil_r. split; constructor.
  - unfold callback in H.
    destruct (json_Unmarshal (data r)) as [err|ssm] eqn:Hr; cbn in H; [discriminate|].
    destruct (IH _ H) as (collected & Hres & Hall).
    exists ({| msg := ssm; rtt := since_start r |} :: collected). split.
    + rewrite Hres. cbn. rewrite <- app_assoc. reflexivity.
    + constructor; [split; [exact Hr | reflexivity] | exact Hall].
Qed.

Lemma add_server_rows_lines (cNames cHosts : list string) (rs : list result) :
  forall (i : nat) (t : table),
  (i + length rs <= length cNames)%nat ->
  (i + length rs <= length cHosts)%nat ->
  exists rows t',
    add_server_rows cNames cHosts i rs t = Some t' /\
    length rows = length rs /\
    lines t' = lines t ++ (Row <$> rows).
Proof.
  induction rs as [|r rs IH]; intros i t Hn Hh; cbn in *.
  - exists [], t. rewrite app_nil_r. repeat split.
  - destruct (lookup_lt_is_Some_2 cNames i ltac:(lia)) as (n & Hin).
    destruct (lookup_lt_is_Some_2 cHosts i ltac:(lia)) as (h & Hih).
    rewrite Hin, Hih.
    destruct (IH (S i) (AddRow (server_row n h r) t) ltac:(lia) ltac:(lia))
      as (rows & t' & Ht' & Hlen & Hlines).
    exists (server_row n h r :: rows), t'. split; [exact Ht'|]. split.
    + cbn. rewrite Hlen. reflexivity.
    + rewrite Hlines. cbn. rewrite <- app_assoc. reflexivity.
Qed.
End Outcome.

(** C6. When the window closes on no collected reply, [list] returns the
    error that points at system privileges and permissions, and has printed
    nothing: neither a table nor JSON, whatever the flags. *)
Theorem no_replies_is_an_error
    (json_Unmarshal : list byte -> string + ServerStatsMsg)
    (compactStrings : list string -> list string)
    (c : SrvLsCmd) (arrivals : list reply) (st : accumulators) :
  doReqAsync json_Unmarshal (wrap_int64 (expect c)) arrivals start_of_run = Running st ->
  results st = [] ->
  SrvLsCmd_list json_Unmarshal compactStrings c None arrivals
  = Return_error
      "no results received, ensure the account used has system privileges and appropriate permissions".
Proof.
  intros Hrun Hres. unfold SrvLsCmd_list. rewrite Hrun.
  unfold report. rewrite Hres. reflexivity.
Qed.

Lemma no_replies_is_an_error_witness :
  SrvLsCmd_list one_byte_Unmarshal (fun l => l) (cmd "name" false true) None []
  = Return_error no_results_error.
Proof.
  apply (no_replies_is_an_error one_byte_Unmarshal (fun l => l) (cmd "name" false true)
           [] start_of_run); reflexivity.
Defined.

(** C7. When a reply handed to the callback does not decode, [list] ends in
    the exit with status 1 taken right after the line "Could not decode
    response: ..." is logged; nothing is printed, and the replies that did
    decode are not reported either. *)
Theorem undecodable_reply_aborts
    (json_Unmarshal : list byte -> string + ServerStatsMsg)
    (compactStrings : list string -> list string)
    (c : SrvLsCmd) (arrivals : list reply) :
  Exists (fun r => exists err, json_Unmarshal (data r) = inl err)
         (window (wrap_int64 (expect c)) arrivals) ->
  exists err,
    SrvLsCmd_list json_Unmarshal compactStrings c None arrivals
    = Exit ("Could not decode response: " ++ err) 1.
Proof.
  intros H. unfold SrvLsCmd_list, doReqAsync.
  destruct (deliver_undecodable json_Unmarshal _ start_of_run H) as (err & ->).
  exists err. reflexivity.
Qed.

Lemma undecodable_reply_aborts_witness :
  exists err,
    SrvLsCmd_list one_byte_Unmarshal (fun l => l) (cmd "name" false false) None
      [ {| data := [x05]; since_start := 1 |};
        {| data := []; since_start := 2 |};
        {| data := [x07]; since_start := 3 |} ]
    = Exit ("Could not decode response: " ++ err) 1.
Proof.
  apply undecodable_reply_aborts.
  apply Exists_cons_tl, Exists_cons_hd. eexists. reflexivity.
Defined.

(** C8, as the code has it. The server table ends with a separator and one
    totals row after one row per record. The totals row gives the cluster
    count under Cluster, the server count under Host, the JetStream count
    under JS, and the connection, subscription, memory and slow-consumer
    totals under Conns, Subs, Mem and Slow; it is blank under Name,
    Version, Routes, GWs, CPU %, Cores, Uptime and RTT. *)
Theorem totals_row_closes_server_table
    (compactStrings : list string -> list string)
    (c : SrvLsCmd) (st : accumulators) :
  json c = false ->
  results st <> [] ->
  compact c = false \/ (forall l, length (compactStrings l) = length l) ->
  (exists rows t rest,
     report compactStrings c st = Return_nil (PrintTable t :: rest) /\
     headers t = server_overview_headers /\
     length rows = length (results st) /\
     lines t = (Row <$> rows) ++ [Separator; Row (totals_row st)]) /\
  cell_under "Cluster" (totals_row st) = Some (CInt (Z.of_nat (size (clusters st)))) /\
  cell_under "Host" (totals_row st) = Some (CInt (servers st)) /\
  cell_under "JS" (totals_row st) = Some (CInt (js st)) /\
  cell_under "Conns" (totals_row st) = Some (CComma (wrap_int64 (connections st))) /\
  cell_under "Subs" (totals_row st) = Some (CComma (wrap_int64 (subs st))) /\
  cell_under "Mem" (totals_row st) = Some (CIBytes (wrap_uint64 (memory st))) /\
  cell_under "Slow" (totals_row st) = Some (CComma (slow st)) /\
  Forall (fun h => cell_under h (totals_row st) = Some blank)
         ["Name"; "Version"; "Routes"; "GWs"; "CPU %"; "Cores"; "Uptime"; "RTT"].
Proof.
  intros Hj Hres Hc. split; [|repeat split; repeat constructor].
  unfold report. rewrite Hj.
  assert (Hlen : (len (results st) =? 0) = false).
  { apply Z.eqb_neq. unfold len. destruct (results st); [congruence|cbn; lia]. }
  rewrite Hlen.
  assert (Hn : forall l : list string,
            length (if compact c then compactStrings l else l) = length l).
  { intros l. destruct Hc as [->|Hcs]; [reflexivity|].
    destruct (compact c); [apply Hcs | reflexivity]. }
  set (ranked := rank c (results st)).
  assert (Hrk : length ranked = length (results st)).
  { apply Permutation_length, sort_Slice_Permutation. }
  set (t0 := AddHeaders server_overview_headers (newTableWriter "Server Overview")).
  match goal with
  | |- context [add_server_rows ?ns ?hs 0 ranked t0] =>
      destruct (add_server_rows_lines ns hs ranked 0 t0) as (rows & t' & Ht' & Hrows & Hlines)
  end.
  - rewrite Hn, length_fmap. cbn. lia.
  - rewrite Hn, length_fmap. cbn. lia.
  - rewrite Ht'. eexists rows, _, _. split; [reflexivity|].
    split; [|split; [congruence|]].
    + cbn. clear -Ht'.
      assert (G : forall ns hs rs i t t', add_server_rows ns hs i rs t = Some t' ->
                                     headers t' = headers t).
      { clear. intros ns hs rs. induction rs as [|r rs IH]; intros i t t' H; cbn in H.
        - congruence.
        - destruct (ns !! i), (hs !! i); try discriminate.
          rewrite (IH _ _ _ H). reflexivity. }
      rewrite (G _ _ _ _ _ _ Ht'). reflexivity.
    + cbn. rewrite Hlines. cbn. rewrite <- !app_assoc. reflexivity.
Qed.

Lemma totals_row_closes_server_table_witness :
  let st := feed three_replies start_of_run in
  cell_under "Host" (totals_row st) = Some (CInt (servers st)) /\
  exists rows t rest,
    report (fun l => l) (cmd "conns" false false) st = Return_nil (PrintTable t :: rest) /\
    headers t = server_overview_headers /\
    length rows = length (results st) /\
    lines t = (Row <$> rows) ++ [Separator; Row (totals_row st)].
Proof.
  pose proof (totals_row_closes_server_table (fun l => l) (cmd "conns" false false)
                (feed three_replies start_of_run)
                eq_refl ltac:(discriminate) (or_introl eq_refl)) as H.
  cbv zeta. split; [exact (proj1 (proj2 (proj2 H))) | exact (proj1 H)].
Defined.

(** C8 as worded fails: the Host column of the totals row is not blank, it
    holds the server count. *)
Lemma totals_row_host_not_blank :
  cell_under "Host" (totals_row (feed three_replies start_of_run)) = Some (CInt 3) /\
  ~ Forall (fun h => cell_under h (totals_row (feed three_replies start_of_run)) = Some blank)
      columns_said_blank.
Proof.
  split; [reflexivity|].
  intros H. apply Forall_cons_1 in H. destruct H as [_ H].
  apply Forall_cons_1 in H. destruct H as [H _]. vm_compute in H. discriminate.
Qed.

(** C9, as the code has it. With [json] set and at least one record
    collected, [list] prints the records as one JSON document and no table.
    The document is the collected sequence in its order of arrival, whatever
    the sort key and [reverse] are: the branch returns before [sort.Slice].
    The accumulators are filled before the branch and do not depend on
    [json]. *)
Theorem json_prints_arrival_order
    (json_Unmarshal : list byte -> string + ServerStatsMsg)
    (compactStrings : list string -> list string)
    (c : SrvLsCmd) (arrivals : list reply) (st : accumulators) :
  json c = true ->
  doReqAsync json_Unmarshal (wrap_int64 (expect c)) arrivals start_of_run = Running st ->
  results st <> [] ->
  SrvLsCmd_list json_Unmarshal compactStrings c None arrivals
    = Return_nil [PrintJSON (results st)] /\
  Forall2 (fun r res => json_Unmarshal (data r) = inr (msg res) /\ rtt res = since_start r)
    (window (wrap_int64 (expect c)) arrivals) (results st) /\
  (forall c', expect c' = expect c ->
     doReqAsync json_Unmarshal (wrap_int64 (expect c')) arrivals start_of_run = Running st).
Proof.
  intros Hj Hrun Hres. split; [|split].
  - unfold SrvLsCmd_list. rewrite Hrun. unfold report. rewrite Hj.
    replace (len (results st) =? 0) with false; [reflexivity|].
    symmetry. apply Z.eqb_neq. unfold len. destruct (results st); [congruence|cbn; lia].
  - destruct (deliver_results json_Unmarshal _ _ _ Hrun) as (collected & Hc & Hall).
    rewrite Hc. exact Hall.
  - intros c' ->. exact Hrun.
Qed.

Lemma json_prints_arrival_order_witness :
  SrvLsCmd_list one_byte_Unmarshal (fun l => l) (cmd "mem" false true) None
    [ {| data := [x64]; since_start := 1 |}; {| data := [xc8]; since_start := 2 |} ]
  = Return_nil [PrintJSON [sample "s" "" 0 100 1; sample "s" "" 0 200 2]].
Proof.
  apply (json_prints_arrival_order one_byte_Unmarshal (fun l => l) (cmd "mem" false true)
           [ {| data := [x64]; since_start := 1 |}; {| data := [xc8]; since_start := 2 |} ]
           (feed [(msg (sample "s" "" 0 100 0), 1); (msg (sample "s" "" 0 200 0), 2)]
                 start_of_run));
    [reflexivity | reflexivity | discriminate].
Defined.

(** C9 as worded fails: with [json] set, the key mem and [reverse] off, two
    replies of 100 and 200 bytes are printed in that order, which is the
    order of arrival and not the ranked one. *)
Lemma json_output_is_not_ranked :
  SrvLsCmd_list one_byte_Unmarshal (fun l => l) (cmd "mem" false true) None
    [ {| data := [x64]; since_start := 1 |}; {| data := [xc8]; since_start := 2 |} ]
  = Return_nil [PrintJSON [sample "s" "" 0 100 1; sample "s" "" 0 200 2]] /\
  rank (cmd "mem" false true) [sample "s" "" 0 100 1; sample "s" "" 0 200 2]
  = [sample "s" "" 0 200 2; sample "s" "" 0 100 1] /\
  ~ descending (metric_le by_mem) [sample "s" "" 0 100 1; sample "s" "" 0 200 2].
Proof.
  split; [reflexivity|]. split; [reflexivity|].
  intros H. apply StronglySorted_inv in H. destruct H as [_ H].
  apply Forall_inv in H. unfold flip in H. cbn in H. lia.
Qed.


(** * Further facts *)

(** ** [sort.Slice] under a comparator and under its negation *)

Section SortSliceNegated.
Context {A : Type}.
Variable lt : A -> A -> bool.
Hypothesis lt_asym : forall a b, lt a b = true -> lt b a = false.
Hypothesis ge_trans : forall a b c, lt a b = false -> lt b c = false -> lt a c = false.

Let ge (a b : A) : bool := negb (lt a b).

Lemma sink_stops (f : A -> A -> bool) (x p : A) (l r : list A) :
  f x p = false -> sink f x (l ++ p :: r) = sink f x l ++ p :: r.
Proof.
  intros Hp. induction l as [|q l IH]; cbn.
  - rewrite Hp. reflexivity.
  - destruct (f x q); [rewrite IH|]; reflexivity.
Qed.

Lemma sink_passes (f : A -> A -> bool) (x : A) (l : list A) :
  Forall (fun q => f x q = true) l -> sink f x l = l ++ [x].
Proof.
  induction 1 as [|q l Hq _ IH]; cbn; [reflexivity|].
  rewrite Hq, IH. reflexivity.
Qed.

Lemma sink_negated (x : A) (a : list A) :
  StronglySorted (fun p q => lt p q = false) a ->
  sink ge x (List.rev a) = List.rev (sink lt x a).
Proof.
  induction 1 as [|p a Hs IH Hp]; [reflexivity|].
  cbn [sink List.rev]. destruct (lt x p) eqn:Hxp.
  - cbn [List.rev]. rewrite <- IH. apply sink_stops.
    unfold ge. rewrite Hxp. reflexivity.
  - cbn [List.rev]. apply (sink_passes ge x (List.rev a ++ [p])).
    apply Forall_app. split.
    + apply Forall_rev. eapply Forall_impl; [exact Hp|].
      intros q Hq. unfold ge. cbn. rewrite (ge_trans x p q Hxp Hq). reflexivity.
    + constructor; [|constructor]. unfold ge. rewrite Hxp. reflexivity.
Qed.

Lemma sink_all_descending (l : list A) :
  StronglySorted (fun p q => lt p q = false) (sink_all lt [] l).
Proof.
  apply Sorted.Sorted_StronglySorted; [intros a b c; apply ge_trans|].
  pose proof (sink_all_Sorted lt l [] ltac:(constructor)) as Hs.
  induction Hs as [|p a Hs IH Hhd]; constructor; [exact IH|].
  destruct Hhd as [|q a Hq]; constructor.
  destruct Hq as [Hq|Hq]; [exact Hq | apply lt_asym, Hq].
Qed.

Lemma sink_all_negated (l : list A) :
  sink_all ge [] l = List.rev (sink_all lt [] l).
Proof.
  induction l as [|x l IH] using rev_ind; [reflexivity|].
  unfold sink_all in *. rewrite !fold_left_app. cbn [fold_left].
  rewrite IH. apply sink_negated, sink_all_descending.
Qed.

(** Sorting under the negated comparator gives the mirror image. *)
Lemma sort_Slice_negated (l : list A) :
  sort_Slice ge l = List.rev (sort_Slice lt l).
Proof.
  rewrite !sort_Slice_sink, sink_all_negated. reflexivity.
Qed.
End SortSliceNegated.

(** ** The [reverse] flag *)

Ltac by_sort_key c :=
  repeat match goal with
  | |- context [if sort_is c ?ks then _ else _] => destruct (sort_is c ks)
  end.

Lemma less_with_reverse (b : bool) (c : SrvLsCmd) (x y : result) :
  less (with_reverse b c) x y
  = if sort_is c ["name"] then less c x y
    else if b then less (with_reverse true c) x y
    else negb (less (with_reverse true c) x y).
Proof.
  unfold less, rev. change (sort_is (with_reverse b c)) with (sort_is c).
  change (sort_is (with_reverse true c)) with (sort_is c).
  cbn [with_reverse reverse negb].
  destruct (sort_is c ["name"]); [reflexivity|].
  destruct b; cbn [negb]; by_sort_key c; reflexivity.
Qed.

Lemma with_reverse_same (c : SrvLsCmd) : with_reverse (reverse c) c = c.
Proof. destruct c; reflexivity. Qed.

Lemma less_reverse_on_asym (c : SrvLsCmd) (x y : result) :
  sort_is c ["name"] = false ->
  less (with_reverse true c) x y = true -> less (with_reverse true c) y x = false.
Proof.
  unfold less, rev. change (sort_is (with_reverse true c)) with (sort_is c).
  cbn [with_reverse reverse negb]. intros ->. by_sort_key c;
    rewrite ?Z.gtb_ltb, ?Z.ltb_lt, ?Z.ltb_ge; try lia.
  intros H. apply float64_lt_true in H. unfold float64_lt.
  apply Qle_bool_iff in H. rewrite H. reflexivity.
Qed.

Lemma less_reverse_on_ge_trans (c : SrvLsCmd) (x y z : result) :
  sort_is c ["name"] = false ->
  less (with_reverse true c) x y = false ->
  less (with_reverse true c) y z = false ->
  less (with_reverse true c) x z = false.
Proof.
  unfold less, rev. change (sort_is (with_reverse true c)) with (sort_is c).
  cbn [with_reverse reverse negb]. intros ->. by_sort_key c;
    rewrite ?Z.gtb_ltb, ?Z.ltb_ge; try lia.
  intros H1 H2. apply float64_lt_false in H1, H2. unfold float64_lt.
  apply negb_false_iff, Qle_bool_iff. eapply Qle_trans; eassumption.
Qed.

Lemma sort_is_name (c : SrvLsCmd) : sort c <> "name" -> sort_is c ["name"] = false.
Proof.
  intros H. unfold sort_is. cbn. apply orb_false_intro; [|reflexivity].
  apply String.eqb_neq, H.
Qed.

Lemma sort_Slice_ext {A : Type} (f g : A -> A -> bool) (l : list A) :
  (forall x y, f x y = g x y) -> sort_Slice f l = sort_Slice g l.
Proof.
  intros H. rewrite !sort_Slice_sink. f_equal.
  unfold sink_all. generalize (@nil A).
  induction l as [|r l IH]; intros acc; cbn; [reflexivity|].
  rewrite IH. f_equal. clear IH.
  induction acc as [|p acc IHacc]; cbn; [reflexivity|].
  rewrite H, IHacc. reflexivity.
Qed.

Lemma rank_mirror (c : SrvLsCmd) (rs : list result) :
  sort_is c ["name"] = false ->
  rank (with_reverse false c) rs = List.rev (rank (with_reverse true c) rs).
Proof.
  intros Hname. unfold rank.
  rewrite <- (sort_Slice_negated (less (with_reverse true c))).
  - apply sort_Slice_ext. intros x y. rewrite less_with_reverse, Hname. reflexivity.
  - intros a b. apply less_reverse_on_asym, Hname.
  - intros a b d. apply less_reverse_on_ge_trans, Hname.
Qed.

(** X1. Under any key but name, and up to [maxInsertion] records, the
    listing with [reverse] off is the listing with [reverse] on read
    backwards. *)
Theorem rank_reverse_off_mirrors_on (c : SrvLsCmd) (rs : list result) :
  sort c <> "name" ->
  (length rs <= maxInsertion)%nat ->
  rank (with_reverse false c) rs = List.rev (rank (with_reverse true c) rs).
Proof. intros Hname _. apply rank_mirror, sort_is_name, Hname. Qed.

Lemma rank_reverse_off_mirrors_on_witness :
  rank (with_reverse false (cmd "mem" true false))
    [sample "a" "" 0 5 1; sample "b" "" 0 7 2; sample "c" "" 0 5 3]
  = List.rev (rank (with_reverse true (cmd "mem" true false))
                [sample "a" "" 0 5 1; sample "b" "" 0 7 2; sample "c" "" 0 5 3]).
Proof.
  apply rank_reverse_off_mirrors_on.
  - discriminate.
  - unfold maxInsertion. cbn. lia.
Defined.

(** X2. Under any key but name, with [reverse] off and up to [maxInsertion]
    records, the records that tie come out in the reverse of their order of
    arrival. *)
Theorem rank_reverses_ties_when_reverse_off
    (c : SrvLsCmd) (rs : list result) (x : result) :
  sort c <> "name" ->
  reverse c = false ->
  (length rs <= maxInsertion)%nat ->
  List.filter (same_key c x) (rank c rs) = List.rev (List.filter (same_key c x) rs).
Proof.
  intros Hname Hr _. pose proof (sort_is_name c Hname) as Hn.
  replace (rank c rs) with (rank (with_reverse false c) rs)
    by (rewrite <- Hr, with_reverse_same; reflexivity).
  rewrite (rank_mirror c rs Hn), List.filter_rev. f_equal.
  unfold rank. apply sort_Slice_filter. intros a b Ha Hb.
  apply less_strict_on_ties; [right; reflexivity|].
  change (same_key (with_reverse true c) a b) with (same_key c a b).
  unfold same_key in *. eapply key_value_eqb_tie; eassumption.
Qed.

Lemma rank_reverses_ties_when_reverse_off_witness :
  List.filter (same_key (cmd "mem" false false) (sample "a" "" 0 5 1))
    (rank (cmd "mem" false false)
       [sample "a" "" 0 5 1; sample "b" "" 0 7 2; sample "c" "" 0 5 3])
  = List.rev [sample "a" "" 0 5 1; sample "c" "" 0 5 3].
Proof.
  apply (rank_reverses_ties_when_reverse_off (cmd "mem" false false)
           [sample "a" "" 0 5 1; sample "b" "" 0 7 2; sample "c" "" 0 5 3]).
  - discriminate.
  - reflexivity.
  - unfold maxInsertion. cbn. lia.
Defined.




(** ** What a run leaves in the accumulators *)

Lemma wrap_int64_idemp (z : Z) : wrap_int64 (wrap_int64 z) = wrap_int64 z.
Proof. apply wrap_int64_id, wrap_int64_range. Qed.

Lemma wrap_int64_idemp_r (a b : Z) : wrap_int64 (a + wrap_int64 b) = wrap_int64 (a + b).
Proof. rewrite Z.add_comm, wrap_int64_idemp_l. f_equal. lia. Qed.

Lemma add_inbound_total (l : list GatewayStat) (g : Z) :
  add_inbound (wrap_int64 g) l = wrap_int64 (g + total NumInbound l).
Proof.
  revert g. induction l as [|x l IH]; intros g.
  - change (wrap_int64 g = wrap_int64 (g + 0)). f_equal. lia.
  - change (add_inbound (wrap_int64 g) (x :: l))
      with (add_inbound (int_add (wrap_int64 g) (NumInbound x)) l).
    change (total NumInbound (x :: l)) with (NumInbound x + total NumInbound l).
    unfold int_add. rewrite wrap_int64_idemp_l, IH. f_equal. lia.
Qed.

Lemma members_snoc (k : string) (rs : list result) (r : result) :
  members k (rs ++ [r]) = members k rs ++ (if in_cluster k r then [r] else []).
Proof. unfold members. rewrite List.filter_app. cbn. destruct (in_cluster k r); reflexivity. Qed.

Lemma bump_cluster_of (ssm : ServerStatsMsg) (d : Z) (k : string) (ms : list result) :
  bump ssm (cluster_of k ms) = cluster_of k (ms ++ [{| msg := ssm; rtt := d |}]).
Proof.
  unfold bump, cluster_of. cbn [name nodes gwOut gwIn conns].
  rewrite fmap_app, !total_snoc. cbn [fmap list_fmap compose msg].
  unfold int_add. rewrite !wrap_int64_idemp_l, add_inbound_total. reflexivity.
Qed.

Lemma entry_of_expected (cl : gmap string srvListCluster) (k : string) (rs : list result) :
  k <> "" -> cl !! k = expected_cluster k rs ->
  entry_of cl k = cluster_of k (members k rs).
Proof.
  intros Hk H. unfold entry_of. rewrite H. unfold expected_cluster.
  apply String.eqb_neq in Hk. rewrite Hk.
  destruct (members k rs); reflexivity.
Qed.

Lemma start_follows : clusters_follow_results start_of_run.
Proof.
  intros k. cbn. rewrite lookup_empty. unfold expected_cluster.
  destruct (String.eqb k ""); reflexivity.
Qed.

Lemma onRecord_follows (ssm : ServerStatsMsg) (d : Z) (st : accumulators) :
  clusters_follow_results st -> clusters_follow_results (onRecord ssm d st).
Proof.
  intros H k. rewrite clusters_onRecord. cbn [onRecord results].
  assert (Hexp : expected_cluster k (results st ++ [{| msg := ssm; rtt := d |}])
          = if String.eqb k "" then None
            else if String.eqb (Cluster (Server ssm)) k
                 then Some (cluster_of k (members k (results st)
                                          ++ [{| msg := ssm; rtt := d |}]))
                 else expected_cluster k (results st)).
  { unfold expected_cluster. rewrite members_snoc. unfold in_cluster. cbn [msg].
    destruct (String.eqb k ""); [reflexivity|].
    destruct (String.eqb (Cluster (Server ssm)) k).
    - destruct (members k (results st)); reflexivity.
    - rewrite app_nil_r. reflexivity. }
  rewrite Hexp. clear Hexp.
  destruct (String.eqb (Cluster (Server ssm)) "") eqn:Hc.
  - apply String.eqb_eq in Hc. rewrite Hc, (String.eqb_sym "" k), H.
    unfold expected_cluster. destruct (String.eqb k ""); reflexivity.
  - rewrite update_cluster_bump.
    destruct (String.eqb (Cluster (Server ssm)) k) eqn:Hck.
    + apply String.eqb_eq in Hck. subst k. rewrite Hc, lookup_insert_eq.
      rewrite (entry_of_expected _ _ (results st)); [|apply String.eqb_neq, Hc|apply H].
      rewrite (bump_cluster_of ssm d). reflexivity.
    + apply String.eqb_neq in Hck. rewrite lookup_insert_ne by exact Hck.
      rewrite H. unfold expected_cluster. destruct (String.eqb k ""); reflexivity.
Qed.

Lemma js_onRecord_count (ssm : ServerStatsMsg) (d : Z) (st : accumulators) :
  js st = wrap_int64 (len (List.filter has_JetStream (results st))) ->
  js (onRecord ssm d st)
  = wrap_int64 (len (List.filter has_JetStream (results (onRecord ssm d st)))).
Proof.
  intros H. cbn [onRecord js results]. rewrite List.filter_app. cbn.
  unfold has_JetStream at 2. cbn [msg]. unfold len. rewrite length_app.
  destruct (JetStream (Server ssm)); cbn [length].
  - rewrite H. unfold int_add, len. rewrite wrap_int64_idemp_l. f_equal. lia.
  - rewrite H. unfold len. f_equal. lia.
Qed.

Section RunInvariant.
Variable json_Unmarshal : list byte -> string + ServerStatsMsg.

(** What every application of the step keeps, a run keeps. *)
Lemma deliver_keeps (P : accumulators -> Prop) :
  (forall ssm d st, P st -> P (onRecord ssm d st)) ->
  forall rs st st', deliver json_Unmarshal rs st = Running st' -> P st -> P st'.
Proof.
  intros Hstep rs. induction rs as [|r rs IH]; intros st st' H Hst; cbn in H.
  - injection H as <-. exact Hst.
  - unfold callback in H. destruct (json_Unmarshal (data r)); cbn in H; [discriminate|].
    eapply IH; [exact H|]. apply Hstep, Hst.
Qed.
End RunInvariant.

Lemma three_arrivals_run :
  doReqAsync (table_Unmarshal three_replies.*1) (wrap_int64 (expect (cmd "name" false false)))
    three_arrivals start_of_run
  = Running (feed three_replies start_of_run).
Proof. reflexivity. Qed.

(** X4. When a run reaches the report, the server count is the number of
    collected records and the JetStream count the number of those with
    JetStream enabled, so never more than the server count; the connection
    total is the sum of their connections as an [int]. *)
Theorem totals_count_the_records
    (json_Unmarshal : list byte -> string + ServerStatsMsg)
    (c : SrvLsCmd) (arrivals : list reply) (st : accumulators) :
  doReqAsync json_Unmarshal (wrap_int64 (expect c)) arrivals start_of_run = Running st ->
  len (results st) < 2 ^ 63 ->
  servers st = len (results st) /\
  js st = len (List.filter has_JetStream (results st)) /\
  js st <= servers st /\
  connections st = wrap_int64 (total (Connections ∘ Stats ∘ msg) (results st)).
Proof.
  intros Hrun Hlen. unfold doReqAsync in Hrun.
  pose proof (deliver_agrees _ _ _ _ Hrun start_agrees) as [Hs Hc _ _ _].
  assert (Hjs : js st = wrap_int64 (len (List.filter has_JetStream (results st)))).
  { apply (deliver_keeps json_Unmarshal
             (fun st => js st = wrap_int64 (len (List.filter has_JetStream (results st))))
             js_onRecord_count _ _ _ Hrun).
    reflexivity. }
  assert (Hle : len (List.filter has_JetStream (results st)) <= len (results st)).
  { unfold len. apply Nat2Z.inj_le, List.filter_length_le. }
  assert (H0 : forall l : list result, 0 <= len l) by (intros l; unfold len; lia).
  rewrite wrap_int64_id in Hs by (unfold is_int64; specialize (H0 (results st)); lia).
  rewrite wrap_int64_id in Hjs
    by (unfold is_int64; specialize (H0 (List.filter has_JetStream (results st))); lia).
  repeat split; try assumption. lia.
Qed.

Lemma totals_count_the_records_witness :
  servers (feed three_replies start_of_run) = len (results (feed three_replies start_of_run)).
Proof.
  apply (totals_count_the_records (table_Unmarshal three_replies.*1)
           (cmd "name" false false) three_arrivals _ three_arrivals_run).
  vm_compute. reflexivity.
Defined.

Section ClusterTable.
Variable json_Unmarshal : list byte -> string + ServerStatsMsg.

Lemma run_follows (w : Z) (arrivals : list reply) (st : accumulators) :
  doReqAsync json_Unmarshal w arrivals start_of_run = Running st ->
  clusters_follow_results st.
Proof.
  intros Hrun. unfold doReqAsync in Hrun.
  apply (deliver_keeps json_Unmarshal clusters_follow_results onRecord_follows _ _ _ Hrun).
  apply start_follows.
Qed.
End ClusterTable.

Lemma members_nonempty (k : string) (rs : list result) :
  members k rs <> [] <-> exists r, In r rs /\ Cluster (Server (msg r)) = k.
Proof.
  unfold members. split.
  - destruct (List.filter (in_cluster k) rs) as [|r l] eqn:E; [congruence|].
    intros _. exists r.
    assert (Hin : In r (List.filter (in_cluster k) rs)) by (rewrite E; left; reflexivity).
    apply List.filter_In in Hin. destruct Hin as [Hin Hk].
    split; [exact Hin | apply String.eqb_eq, Hk].
  - intros (r & Hin & Hk) E.
    assert (Hr : In r (List.filter (in_cluster k) rs)).
    { apply List.filter_In. split; [exact Hin | apply String.eqb_eq, Hk]. }
    rewrite E in Hr. destruct Hr.
Qed.

(** X5. When a run reaches the report, the cluster table has an entry for
    exactly the non-empty cluster names that some collected record carries;
    the empty name never gets one. *)
Theorem clusters_are_the_named_ones
    (json_Unmarshal : list byte -> string + ServerStatsMsg)
    (c : SrvLsCmd) (arrivals : list reply) (st : accumulators) (k : string) :
  doReqAsync json_Unmarshal (wrap_int64 (expect c)) arrivals start_of_run = Running st ->
  (is_Some (clusters st !! k) <->
   k <> "" /\ exists r, In r (results st) /\ Cluster (Server (msg r)) = k).
Proof.
  intros Hrun. rewrite (run_follows _ _ _ _ Hrun k). unfold expected_cluster.
  rewrite <- members_nonempty.
  destruct (String.eqb_spec k "") as [->|Hk].
  - split; [intros [e He]; discriminate | intros [Hne _]; congruence].
  - destruct (members k (results st)) eqn:E.
    + split; [intros [e He]; discriminate | intros [_ Hne]; congruence].
    + split; [intros _; split; [exact Hk | discriminate] | intros _; eexists; reflexivity].
Qed.

Lemma clusters_are_the_named_ones_witness :
  is_Some (clusters (feed three_replies start_of_run) !! "B") <->
  "B" <> "" /\
  exists r, In r (results (feed three_replies start_of_run)) /\
            Cluster (Server (msg r)) = "B".
Proof.
  apply (clusters_are_the_named_ones (table_Unmarshal three_replies.*1)
           (cmd "name" false false) three_arrivals _ "B" three_arrivals_run).
Defined.

(** X6. When a run reaches the report, the entry of a cluster carries the
    name of the cluster, the server names of the records of that cluster in
    their order of arrival, and, each as an [int], the sum of their
    connections, the number of their gateways and the sum of the inbound
    connections over their gateways. *)
Theorem cluster_entry_adds_up
    (json_Unmarshal : list byte -> string + ServerStatsMsg)
    (c : SrvLsCmd) (arrivals : list reply) (st : accumulators)
    (k : string) (e : srvListCluster) :
  doReqAsync json_Unmarshal (wrap_int64 (expect c)) arrivals start_of_run = Running st ->
  clusters st !! k = Some e ->
  name e = k /\
  nodes e = (Name ∘ Server ∘ msg <$> members k (results st)) /\
  conns e = wrap_int64 (total (Connections ∘ Stats ∘ msg) (members k (results st))) /\
  gwOut e = wrap_int64 (total (len ∘ Gateways ∘ Stats ∘ msg) (members k (results st))) /\
  gwIn e = wrap_int64 (total inbound (members k (results st))).
Proof.
  intros Hrun He. rewrite (run_follows _ _ _ _ Hrun k) in He.
  unfold expected_cluster in He. destruct (String.eqb k ""); [discriminate|].
  destruct (members k (results st)) eqn:E; [discriminate|].
  injection He as <-. repeat split.
Qed.

Lemma cluster_entry_adds_up_witness :
  exists e, clusters (feed three_replies start_of_run) !! "A" = Some e /\
    nodes e = ["n1"; "n3"] /\ conns e = 10.
Proof.
  destruct (clusters (feed three_replies start_of_run) !! "A") as [e|] eqn:He;
    [|vm_compute in He; discriminate].
  exists e. split; [reflexivity|].
  pose proof (cluster_entry_adds_up (table_Unmarshal three_replies.*1)
                (cmd "name" false false) three_arrivals _ "A" e
                three_arrivals_run He) as (_ & Hn & Hc & _).
  split; [exact Hn | exact Hc].
Defined.

(** ** The server table, row by row *)




Section ServerTable.
Variable compactStrings : list string -> list string.

(** The compacted names and hosts of the ranked records. *)
Let cNames (c : SrvLsCmd) (st : accumulators) : list string :=
  let names := Name ∘ Server ∘ msg <$> rank c (results st) in
  if compact c then compactStrings names else names.
Let cHosts (c : SrvLsCmd) (st : accumulators) : list string :=
  let hosts := Host ∘ Server ∘ msg <$> rank c (results st) in
  if compact c then compactStrings hosts else hosts.

End ServerTable.






(** ** [showClusters] *)

Lemma showClusters_as_in (cl : gmap string srvListCluster) :
  showClusters cl = showClusters_in (cluster_values cl).
Proof. reflexivity. Qed.

Lemma total_Permutation {R : Type} (f : R -> Z) (l l' : list R) :
  Permutation l l' -> total f l = total f l'.
Proof.
  unfold total. induction 1 as [|x l l' _ IH|x y l|l l' l'' _ IH1 _ IH2]; cbn;
    [reflexivity | rewrite IH; reflexivity | lia | congruence].
Qed.

Lemma fold_AddRow (l : list srvListCluster) (t : table) :
  fold_left (fun t c => AddRow (cluster_row c) t) l t
  = {| title := title t; headers := headers t;
       lines := lines t ++ (Row ∘ cluster_row <$> l) |}.
Proof.
  revert t. induction l as [|c l IH]; intros t; cbn [fold_left fmap list_fmap].
  - rewrite app_nil_r. destruct t; reflexivity.
  - rewrite IH. unfold AddRow. cbn [title headers lines compose].
    rewrite <- app_assoc. reflexivity.
Qed.

Lemma fold_int_add {R : Type} (f : R -> Z) (l : list R) (g : Z) :
  fold_left (fun acc c => int_add acc (f c)) l (wrap_int64 g)
  = wrap_int64 (g + total f l).
Proof.
  revert g. induction l as [|x l IH]; intros g; cbn [fold_left].
  - change (total f []) with 0. f_equal. lia.
  - unfold int_add at 2. rewrite wrap_int64_idemp_l, IH.
    change (total f (x :: l)) with (f x + total f l). f_equal. lia.
Qed.

Lemma fold_int_add_0 {R : Type} (f : R -> Z) (l : list R) :
  fold_left (fun acc c => int_add acc (f c)) l 0 = wrap_int64 (total f l).
Proof. exact (fold_int_add f l 0). Qed.

(** The cluster table for a given order of the range loop, written out. *)
Lemma showClusters_in_exact (order : list srvListCluster) :
  showClusters_in order
  = {| title := "Cluster Overview"; headers := cluster_overview_headers;
       lines := (Row ∘ cluster_row <$> sort_Slice (fun a b => conns a <? conns b) order)
                ++ [Separator;
                    Row [CString "";
                         CInt (wrap_int64 (total (len ∘ nodes) order));
                         CInt (wrap_int64 (total gwOut order));
                         CInt (wrap_int64 (total gwIn order));
                         CInt (wrap_int64 (total conns order))]] |}.
Proof.
  unfold showClusters_in. cbv zeta.
  rewrite fold_AddRow, !fold_int_add_0.
  set (sorted := sort_Slice (fun a b => conns a <? conns b) order).
  assert (Hp : Permutation sorted order) by apply sort_Slice_Permutation.
  rewrite !(total_Permutation _ _ _ Hp).
  unfold AddRow, AddSeparator, AddHeaders, newTableWriter.
  cbn [title headers lines app]. rewrite <- app_assoc. reflexivity.
Qed.



(** ** The totals of the cluster table against the collected records *)

Lemma total_cons {R : Type} (f : R -> Z) (x : R) (l : list R) :
  total f (x :: l) = f x + total f l.
Proof. reflexivity. Qed.

Lemma total_values_insert (F : srvListCluster -> Z)
    (cl : gmap string srvListCluster) (k : string) (v : srvListCluster) :
  F {| name := k; nodes := []; gwOut := 0; gwIn := 0; conns := 0 |} = 0 ->
  total F (cluster_values (<[k:=v]> cl))
  = total F (cluster_values cl) - F (entry_of cl k) + F v.
Proof.
  intros Hfresh. unfold cluster_values, entry_of.
  destruct (cl !! k) as [e|] eqn:Hk; cbn [default].
  - rewrite <- (insert_delete_eq cl k v).
    rewrite (total_Permutation F _ _
               (fmap_Permutation snd _ _
                  (map_to_list_insert (delete k cl) k v (lookup_delete_eq cl k)))).
    rewrite <- (total_Permutation F _ _
                  (fmap_Permutation snd _ _ (map_to_list_delete cl k e Hk))).
    rewrite !fmap_cons, !total_cons. cbn [snd]. unfold id. lia.
  - rewrite (total_Permutation F _ _
               (fmap_Permutation snd _ _ (map_to_list_insert cl k v Hk))).
    rewrite fmap_cons, total_cons, Hfresh. cbn [snd]. lia.
Qed.

Lemma named_snoc (rs : list result) (r : result) :
  named (rs ++ [r]) = named rs ++ (if names_a_cluster r then [r] else []).
Proof. unfold named. rewrite List.filter_app. cbn. destruct (names_a_cluster r); reflexivity. Qed.

Lemma sums_match_step (F : srvListCluster -> Z) (G : result -> Z) :
  (forall k, F {| name := k; nodes := []; gwOut := 0; gwIn := 0; conns := 0 |} = 0) ->
  (forall ssm d e,
     wrap_int64 (F (bump ssm e)) = wrap_int64 (F e + G {| msg := ssm; rtt := d |})) ->
  forall ssm d st, sums_match F G st -> sums_match F G (onRecord ssm d st).
Proof.
  intros Hfresh Hbump ssm d st H. unfold sums_match in *.
  rewrite clusters_onRecord. cbn [onRecord results]. rewrite named_snoc.
  unfold names_a_cluster. cbn [msg].
  destruct (String.eqb (Cluster (Server ssm)) ""); cbn [negb].
  - rewrite app_nil_r. exact H.
  - rewrite update_cluster_bump, total_values_insert by apply Hfresh.
    rewrite total_snoc.
    set (T := total F (cluster_values (clusters st))) in *.
    set (e0 := entry_of (clusters st) (Cluster (Server ssm))).
    rewrite <- wrap_int64_idemp_r, (Hbump ssm d e0), wrap_int64_idemp_r.
    replace (T - F e0 + (F e0 + G {| msg := ssm; rtt := d |}))
      with (T + G {| msg := ssm; rtt := d |}) by lia.
    rewrite <- wrap_int64_idemp_l, H, wrap_int64_idemp_l. reflexivity.
Qed.

Lemma sums_match_start (F : srvListCluster -> Z) (G : result -> Z) :
  sums_match F G start_of_run.
Proof. reflexivity. Qed.

Lemma add_inbound_any (l : list GatewayStat) (g : Z) :
  wrap_int64 (add_inbound g l) = wrap_int64 (g + total NumInbound l).
Proof.
  destruct l as [|x l].
  - cbn. f_equal. lia.
  - change (add_inbound g (x :: l)) with (add_inbound (int_add g (NumInbound x)) l).
    unfold int_add. rewrite add_inbound_total, wrap_int64_idemp.
    change (total NumInbound (x :: l)) with (NumInbound x + total NumInbound l).
    f_equal. lia.
Qed.

Lemma total_ones {R : Type} (l : list R) : total (fun _ => 1) l = len l.
Proof. unfold total, len. induction l as [|x l IH]; cbn [foldr length]; lia. Qed.

(** X10. When a run reaches the report, the totals row of the cluster table
    gives, each as an [int], the number of collected records that carry a
    cluster name, the number of their gateways, the sum of the inbound
    connections over their gateways and the sum of their connections,
    whatever the order in which the range loop visits the map. *)
Theorem cluster_totals_cover_named_records
    (json_Unmarshal : list byte -> string + ServerStatsMsg)
    (c : SrvLsCmd) (arrivals : list reply) (st : accumulators)
    (order : list srvListCluster) :
  doReqAsync json_Unmarshal (wrap_int64 (expect c)) arrivals start_of_run = Running st ->
  Permutation order (cluster_values (clusters st)) ->
  last (lines (showClusters_in order))
  = Some (Row [CString "";
               CInt (wrap_int64 (len (named (results st))));
               CInt (wrap_int64 (total (len ∘ Gateways ∘ Stats ∘ msg) (named (results st))));
               CInt (wrap_int64 (total inbound (named (results st))));
               CInt (wrap_int64 (total (Connections ∘ Stats ∘ msg) (named (results st))))]).
Proof.
  intros Hrun Hp. unfold doReqAsync in Hrun.
  assert (Hkeep : forall F G,
    (forall k, F {| name := k; nodes := []; gwOut := 0; gwIn := 0; conns := 0 |} = 0) ->
    (forall ssm d e,
       wrap_int64 (F (bump ssm e)) = wrap_int64 (F e + G {| msg := ssm; rtt := d |})) ->
    sums_match F G st).
  { intros F G Hf Hb.
    apply (deliver_keeps json_Unmarshal (sums_match F G)
             (sums_match_step F G Hf Hb) _ _ _ Hrun).
    apply sums_match_start. }
  rewrite showClusters_in_exact. cbn [lines]. rewrite last_app. cbn [last].
  rewrite !(total_Permutation _ _ _ Hp).
  rewrite <- total_ones.
  rewrite (Hkeep (len ∘ nodes) (fun _ => 1)), (Hkeep gwOut (len ∘ Gateways ∘ Stats ∘ msg)),
    (Hkeep gwIn inbound), (Hkeep conns (Connections ∘ Stats ∘ msg)); try reflexivity.
  - intros ssm d e. cbn. unfold int_add. apply wrap_int64_idemp.
  - intros ssm d e. cbn [bump gwIn]. apply add_inbound_any.
  - intros ssm d e. cbn. unfold int_add. apply wrap_int64_idemp.
  - intros ssm d e. cbn. unfold len. rewrite length_app. cbn. f_equal. lia.
Qed.

Lemma cluster_totals_cover_named_records_witness :
  last (lines (showClusters (clusters (feed three_replies start_of_run))))
  = Some (Row [CString ""; CInt 3; CInt 0; CInt 0; CInt 30]).
Proof.
  rewrite showClusters_as_in.
  exact (cluster_totals_cover_named_records (table_Unmarshal three_replies.*1)
           (cmd "name" false false) three_arrivals _ _ three_arrivals_run
           (Permutation_refl _)).
Defined.

(** ** The [sort] flag and the [switch] *)



(** X12. Every value the [sort] flag accepts is name, a key of one of the
    seven metrics, uptime, or a value the [switch] has no case for, and rtt
    is the only one of the last kind; gws, which the [switch] has a case
    for, is not a value the flag accepts. *)
Theorem sort_flag_values_and_cases :
  Forall (fun k => k = "name" \/ (exists m, In k (metric_keys m)) \/ k = "uptime" \/
                   (k = "rtt" /\ ~ In k recognized_keys)) sort_enum /\
  In "gws" recognized_keys /\ ~ In "gws" sort_enum.
Proof.
  assert (E : sort_enum
              = ["name"; "conns"; "conn"; "subs"; "sub"; "routes"; "route"; "gw";
                 "mem"; "cpu"; "slow"; "uptime"; "rtt"]) by (vm_compute; reflexivity).
  rewrite E. clear E. split; [|split].
  - repeat apply Forall_cons_2; try apply Forall_nil_2.
    + left; reflexivity.
    + right; left; exists by_conns; left; reflexivity.
    + right; left; exists by_conns; right; left; reflexivity.
    + right; left; exists by_subs; left; reflexivity.
    + right; left; exists by_subs; right; left; reflexivity.
    + right; left; exists by_routes; left; reflexivity.
    + right; left; exists by_routes; right; left; reflexivity.
    + right; left; exists by_gws; right; left; reflexivity.
    + right; left; exists by_mem; left; reflexivity.
    + right; left; exists by_cpu; left; reflexivity.
    + right; left; exists by_slow; left; reflexivity.
    + right; right; left; reflexivity.
    + right; right; right. split; [reflexivity|].
      unfold recognized_keys. intros H.
      repeat (destruct H as [H|H]; [discriminate H|]). exact H.
  - unfold recognized_keys. do 7 right. left. reflexivity.
  - intros H. repeat (destruct H as [H|H]; [discriminate H|]). exact H.
Qed.
